(** * SidebarLayout: a shallow embedding of [src/app/src/layouts/SidebarLayout.tsx]

  The module renders a documentation sidebar: a filterable navigation
  tree ([Nav], [filtered]), a scroll-into-view layout effect
  ([nearestScrollableContainer]), the quick-search input
  ([DynamicSearchButton]), the top-level links ([TopLevelNav]) and the
  mobile drawer ([SidebarLayout]).

  JavaScript values are modelled as the code uses them: strings are
  sequences of UTF-16 code units, [undefined] is [None], objects used as
  dictionaries are finite maps, arrays are lists, thrown exceptions are
  the [Throw] case of [result], DOM numbers that are doubles are
  binary64 floats. *)

From Stdlib Require Import ZArith NArith List Lia.
From Stdlib Require Import Strings.String Strings.Ascii.
From Stdlib Require Import Floats.PrimFloat.
From stdpp Require Import base option list gmap.

Local Open Scope N_scope.

(* ===================================================================== *)
(** ** JavaScript strings and the built-ins the module calls *)
(* ===================================================================== *)

(** A JavaScript string: its UTF-16 code units. *)
Abbreviation jsstring := (list N).

Module JS.

(** Code units of an ASCII literal, to write ['auto'], [' '], ['false']. *)
Fixpoint lit (s : string) : jsstring :=
  match s with
  | EmptyString => []
  | String c s' => N_of_ascii c :: lit s'
  end.

(** ECMAScript [WhiteSpace] and [LineTerminator] code points, the ones
    [String.prototype.trim] strips. *)
Definition isWhiteSpace (c : N) : bool :=
  (c =? 9) || (c =? 10) || (c =? 11) || (c =? 12) || (c =? 13)
  || (c =? 32) || (c =? 160) || (c =? 5760)
  || ((8192 <=? c) && (c <=? 8202))
  || (c =? 8232) || (c =? 8233) || (c =? 8239) || (c =? 8287)
  || (c =? 12288) || (c =? 65279).

Fixpoint trimStart (s : jsstring) : jsstring :=
  match s with
  | c :: s' => if isWhiteSpace c then trimStart s' else s
  | [] => []
  end.

Definition trimEnd (s : jsstring) : jsstring :=
  reverse (trimStart (reverse s)).

(** [s.trim()] *)
Definition trim (s : jsstring) : jsstring := trimEnd (trimStart s).

(** [s.startsWith(f)] *)
Fixpoint startsWith (s f : jsstring) : bool :=
  match f, s with
  | [], _ => true
  | _ :: _, [] => false
  | c :: f', d :: s' => (c =? d) && startsWith s' f'
  end.

(** [s.includes(f)]: [f] occurs at some position of [s]. *)
Fixpoint includes (s f : jsstring) : bool :=
  startsWith s f ||
  match s with
  | [] => false
  | _ :: s' => includes s' f
  end.

(** [l.join(sep)] on an array of strings. *)
Fixpoint join (sep : jsstring) (l : list jsstring) : jsstring :=
  match l with
  | [] => []
  | [x] => x
  | x :: l' => x ++ sep ++ join sep l'
  end.

(** [String.prototype.toLowerCase] restricted to the ASCII letters; other
    code units are kept.  The development is parametric in the lowercasing
    function, this instance is the one used to run examples. *)
Definition asciiLower (s : jsstring) : jsstring :=
  map (fun c => if (65 <=? c) && (c <=? 90) then c + 32 else c) s.

(** Truthiness of a value of type [string | undefined]. *)
Definition truthy (v : option jsstring) : bool :=
  match v with
  | Some (_ :: _) => true
  | _ => false
  end.

(** Exceptions thrown by the built-ins the module reaches. *)
Inductive error := TypeError | SyntaxError.

(** A computation that returns or throws. *)
Inductive result (A : Type) :=
| Ok (a : A)
| Throw (e : error).
Arguments Ok {A} a.
Arguments Throw {A} e.

Definition bind {A B} (m : result A) (k : A -> result B) : result B :=
  match m with
  | Ok a => k a
  | Throw e => Throw e
  end.

Fixpoint mapM {A B} (f : A -> result B) (l : list A) : result (list B) :=
  match l with
  | [] => Ok []
  | x :: l' =>
      bind (f x) (fun y => bind (mapM f l') (fun ys => Ok (y :: ys)))
  end.

(** The names [Object.prototype] defines (ECMAScript, Annex B included):
    on an object created by [{}], reading one of them yields the inherited
    function or, for [__proto__], the prototype itself, all truthy. *)
Definition objectPrototypeNames : list jsstring :=
  [lit "constructor"; lit "hasOwnProperty"; lit "isPrototypeOf";
   lit "propertyIsEnumerable"; lit "toLocaleString"; lit "toString";
   lit "valueOf"; lit "__proto__"; lit "__defineGetter__";
   lit "__defineSetter__"; lit "__lookupGetter__"; lit "__lookupSetter__"].

(** The value of a string of decimal digits. *)
Fixpoint digitsValue (acc : N) (s : jsstring) : option N :=
  match s with
  | [] => Some acc
  | c :: s' =>
      if (48 <=? c) && (c <=? 57) then digitsValue (10 * acc + (c - 48)) s'
      else None
  end.

(** A property name that is an array index: the canonical decimal text of
    an integer from 0 to 2^32 - 2. *)
Definition arrayIndex (s : jsstring) : option N :=
  match s with
  | [] => None
  | c :: s' =>
      if (c =? 48) && negb (bool_decide (s' = [])) then None
      else
        match digitsValue 0 s with
        | Some v => if v <=? 4294967294 then Some v else None
        | None => None
        end
  end.

(** Insertion of an array-index name among names sorted by index. *)
Fixpoint insertIndexName (k : jsstring) (l : list jsstring) : list jsstring :=
  match l with
  | [] => [k]
  | h :: t =>
      if default 0 (arrayIndex k) <=? default 0 (arrayIndex h) then k :: l
      else h :: insertIndexName k t
  end.

(** The order in which [Object.values] and [Object.keys] visit the own
    string-named properties of an ordinary object, given in creation order:
    array indices first, ascending, then the other names as created. *)
Definition ownPropertyOrder (created : list jsstring) : list jsstring :=
  foldr insertIndexName [] (filter (fun k => is_Some (arrayIndex k)) created)
  ++ filter (fun k => ¬ is_Some (arrayIndex k)) created.

End JS.

#[global] Instance result_bind : MBind JS.result :=
  fun A B k m => JS.bind m k.
#[global] Instance result_ret : MRet JS.result := @JS.Ok.

#[global] Instance error_eq_dec : EqDecision JS.error.
Proof. solve_decision. Defined.
#[global] Instance result_eq_dec `{EqDecision A} : EqDecision (JS.result A).
Proof. solve_decision. Defined.

(* ===================================================================== *)
(** ** The radash helpers imported by the module *)
(* ===================================================================== *)

(** radash is a dependency of the repository; its three helpers are
    modelled after their implementation in radash. *)
Module Radash.

(** [sift(list)]: the list without its falsy items; on values of type
    [string | undefined] these are [undefined] and the empty string. *)
Definition sift (l : list (option jsstring)) : list jsstring :=
  omap (fun v => if JS.truthy v then v else None) l.

(** The callback of the [reduce] in [unique], on the names created so far:
    [if (acc[key]) return acc; acc[key] = item].  The accumulator starts as
    [{}], so [acc[key]] is truthy for a name [Object.prototype] defines as
    well as for a name already stored; storing a name again changes
    nothing. *)
Definition uniqueStep (acc : list jsstring) (item : jsstring)
    : list jsstring :=
  if decide (item ∈ JS.objectPrototypeNames) then acc
  else if decide (item ∈ acc) then acc
  else acc ++ [item].

(** [unique(array)] on strings: [Object.values] of the accumulator. *)
Definition unique (array : list jsstring) : list jsstring :=
  JS.ownPropertyOrder (foldl uniqueStep [] array).

(** [objectify(array, getKey, getValue)]: [reduce] assigning
    [acc[getKey(item)] = getValue(item)], from the empty object.  The map
    holds what the assignments stored, and [!!] reads it back as
    [acc[key]] does for a key that was assigned. *)
Definition objectify {T V} (array : list T) (getKey : T -> jsstring)
    (getValue : T -> V) : gmap jsstring V :=
  foldl (fun acc item => <[getKey item := getValue item]> acc) ∅ array.

End Radash.

(* ===================================================================== *)
(** ** Data model: pages, the navigation map, the site configuration *)
(* ===================================================================== *)

(** Front-matter of a page, as the module reads it ([item.meta.*]); every
  field is a string or missing. *)
Record Meta := {
title : option jsstring;
description : option jsstring;
group : option jsstring;
match_ : option jsstring;
published : option jsstring
}.

Record Page := {
href : jsstring;
meta : Meta
}.

#[global] Instance Meta_eq_dec : EqDecision Meta.
Proof. solve_decision. Defined.
#[global] Instance Page_eq_dec : EqDecision Page.
Proof. solve_decision. Defined.

(** [Nav]: an object whose values are arrays of pages; the entries are
  listed in property order, the order of [Object.values]. *)
Abbreviation Nav := (list (jsstring * list Page)).

Inductive Icon := book | code | chat.

(** An entry of [config.sidebar.links]. *)
Record SidebarLink := {
url : option jsstring;
label : option jsstring;
icon : option Icon
}.

(** [config.sidebar]: both fields are optional. *)
Record Sidebar := {
order : option (list jsstring);
links : option (list (option SidebarLink))
}.

(** The part of [src/config] the module reads. *)
Record Config := {
sidebar : option Sidebar;
algolia : bool
}.

(** The value returned by [filtered]. *)
Record FilteredNav := {
pages : gmap jsstring (list Page);
groups : list jsstring
}.

(* ===================================================================== *)
(** ** [filtered] (in [Nav]) *)
(* ===================================================================== *)

Section Filtered.

(** [String.prototype.toLowerCase] *)
Variable toLowerCase : jsstring -> jsstring.
(** [import config from 'src/config'] *)
Variable config : Config.

(** [Object.values(n).flat()] *)
Definition allPages (n : Nav) : list Page := mjoin (snd <$> n).

(** The predicate of [allPages.filter], for the normalised filter [f]. *)
Definition pageMatches (f : jsstring) (p : Page) : bool :=
  JS.includes
    (toLowerCase
       (JS.join (JS.lit " ")
          (Radash.sift [title (meta p); description (meta p)])))
    f.

Definition matchPages (filter_ : jsstring) (n : Nav) : list Page :=
  let f := toLowerCase (JS.trim filter_) in
  filter (fun p => pageMatches f p = true) (allPages n).

(** [config.sidebar?.order] *)
Definition sidebarOrder : option (list jsstring) :=
  s ← sidebar config; order s.

(** The [groups] of [filtered], from the matching pages. *)
Definition groupsOf (mp : list Page) : list jsstring :=
  match sidebarOrder with
  | Some o =>
      filter (fun g =>
                is_Some (List.find
                           (fun p => bool_decide (group (meta p) = Some g))
                           mp)) o
  | None => Radash.unique (Radash.sift ((fun p => group (meta p)) <$> mp))
  end.

Definition filtered (filter_ : jsstring) (n : Nav) : FilteredNav :=
  let mp := matchPages filter_ n in
  let gs := groupsOf mp in
  {| pages :=
       Radash.objectify gs (fun g => g)
         (fun g => filter (fun p => group (meta p) = Some g) mp);
     groups := gs |}.

End Filtered.


(* ===================================================================== *)
(** ** [NavItem] and the group sections rendered by [Nav] *)
(* ===================================================================== *)

(** What [NavItem] renders: the [li], its [Link] and the anchor. *)
Record NavItemElement := {
  li_data_active : bool;        (* data-active={isActive ? 'true' : undefined} *)
  link_href : jsstring;         (* <Link href={...}> *)
  a_data_is_selected : bool;    (* data-is-selected *)
  a_children : option jsstring  (* {children} *)
}.

Definition NavItem (href_ : jsstring) (children : option jsstring)
    (isActive isPublished : bool) (fallbackHref : jsstring) : NavItemElement :=
  {| li_data_active := isActive;
     link_href := if isPublished then href_ else fallbackHref;
     a_data_is_selected := isActive;
     a_children := children |}.

(** One [<li key={group}>] of the list rendered by [Nav]. *)
Record GroupSection := {
  gs_key : jsstring;
  gs_heading_muted : bool;   (* 'text-slate-400': filteredPages.length === 0 *)
  gs_heading_strong : bool;  (* 'text-slate-900 ...': filteredPages.length > 0 *)
  gs_items : list NavItemElement
}.

Section NavRender.

(** [String.prototype.toLowerCase] *)
Variable toLowerCase : jsstring -> jsstring.
(** [import config from 'src/config'] *)
Variable config : Config.
(** [new RegExp(pattern).test(s)]; the constructor throws a [SyntaxError]
    on an invalid pattern. *)
Variable RegExp_test : jsstring -> jsstring -> JS.result bool.

(** [item.meta.match ? new RegExp(item.meta.match).test(router.pathname)
                     : item.href === router.pathname] *)
Definition isActiveItem (pathname : jsstring) (item : Page) : JS.result bool :=
  match match_ (meta item) with
  | Some (c :: m) => RegExp_test (c :: m) pathname
  | _ => JS.Ok (bool_decide (href item = pathname))
  end.

(** The [NavItem] built for one page inside [filteredPages.map]. *)
Definition renderNavItem (fallbackHref : option jsstring)
    (pathname : jsstring) (item : Page) : JS.result NavItemElement :=
  isActive ← isActiveItem pathname item;
  JS.Ok (NavItem (href item) (title (meta item)) isActive
           (bool_decide (published (meta item) ≠ Some (JS.lit "false")))
           (default [] fallbackHref)).

(** The callback of [filteredNav.groups.map]; reading [.length] of a
    missing entry of [filteredNav.pages] is a [TypeError]. *)
Definition renderGroup (fallbackHref : option jsstring)
    (pathname : jsstring) (filteredNav : FilteredNav) (g : jsstring)
    : JS.result GroupSection :=
  match pages filteredNav !! g with
  | None => JS.Throw JS.TypeError
  | Some filteredPages =>
      items ← JS.mapM (renderNavItem fallbackHref pathname) filteredPages;
      JS.Ok {| gs_key := g;
               gs_heading_muted := bool_decide (length filteredPages = 0%nat);
               gs_heading_strong := bool_decide (0 < length filteredPages)%nat;
               gs_items := items |}
  end.

(** The group list of [Nav], for the search filter [filter_] and the
    navigation map [navigation] ([nav(version ?? 'default')]).  The final
    [.filter(Boolean)] keeps every element: they are all objects. *)
Definition NavGroups (fallbackHref : option jsstring) (pathname : jsstring)
    (filter_ : jsstring) (navigation : Nav) : JS.result (list GroupSection) :=
  let filteredNav := filtered toLowerCase config filter_ navigation in
  JS.mapM (renderGroup fallbackHref pathname filteredNav) (groups filteredNav).

End NavRender.

(* ===================================================================== *)
(** ** The DOM as [nearestScrollableContainer] and the layout effect see it *)
(* ===================================================================== *)

(** A node of the document.  Only elements have a computed style; a shadow
    root has a [host] and no parent. *)
Record DomNode := {
  isElement : bool;
  parentNode : option nat;
  host : option nat;
  overflowX : jsstring;       (* getComputedStyle(el)['overflowX'] *)
  overflowY : jsstring;
  clientHeight : Z;
  scrollHeight : Z;
  clientWidth : Z;
  scrollWidth : Z;
  scrollTop : float;
  offsetTop : float;
  rectHeight : float          (* getBoundingClientRect().height *)
}.

(** The nodes, by identity, and [document.body]. *)
Record Document := {
  nodes : gmap nat DomNode;
  body : nat
}.

(** The test computed by [isScrollable] on an element. *)
Definition scrollableNode (d : DomNode) : bool :=
  let canScrollY := (clientHeight d <? scrollHeight d)%Z in
  let canScrollX := (clientWidth d <? scrollWidth d)%Z in
  let isScrollableY :=
    canScrollY && (bool_decide (overflowY d = JS.lit "auto")
                   || bool_decide (overflowY d = JS.lit "scroll")) in
  let isScrollableX :=
    canScrollX && (bool_decide (overflowX d = JS.lit "auto")
                   || bool_decide (overflowX d = JS.lit "scroll")) in
  isScrollableY || isScrollableX.

(** [isScrollable(el)]: [window.getComputedStyle] throws a [TypeError]
    when its argument is not an element ([undefined], [null], the
    document, a shadow root). *)
Definition isScrollable (doc : Document) (el : option nat) : JS.result bool :=
  match el ≫= (nodes doc !!.) with
  | Some d => if isElement d then JS.Ok (scrollableNode d)
              else JS.Throw JS.TypeError
  | None => JS.Throw JS.TypeError
  end.

(** [el?.parentNode || (el as any).host] *)
Definition parentOrHost (doc : Document) (el : option nat)
    : JS.result (option nat) :=
  match el with
  | None => JS.Throw JS.TypeError          (* undefined.host *)
  | Some i =>
      match nodes doc !! i with
      | None => JS.Throw JS.TypeError
      | Some d =>
          JS.Ok (match parentNode d with
                 | Some p => Some p
                 | None => host d
                 end)
      end
  end.

(** The [while] loop of [nearestScrollableContainer], run for at most
    [fuel] tests of its condition; [None] when the fuel is used up. *)
Fixpoint nearestScrollableContainer (fuel : nat) (doc : Document)
    (el : option nat) : option (JS.result (option nat)) :=
  match fuel with
  | O => None
  | S fuel' =>
      if decide (el = Some (body doc)) then Some (JS.Ok el)
      else
        match isScrollable doc el with
        | JS.Throw e => Some (JS.Throw e)
        | JS.Ok true => Some (JS.Ok el)
        | JS.Ok false =>
            match parentOrHost doc el with
            | JS.Throw e => Some (JS.Throw e)
            | JS.Ok el' => nearestScrollableContainer fuel' doc el'
            end
        end
  end.

(** The elements from [el] up to, and without, [document.body]: [el] is
    [document.body] itself (empty chain) or one of its descendants.  As in
    any DOM tree, what lies between an element and [document.body] are
    elements. *)
Inductive ancestorChain (doc : Document) : nat -> list nat -> Prop :=
| chain_body : ancestorChain doc (body doc) []
| chain_step el d p chain :
    el ≠ body doc ->
    nodes doc !! el = Some d ->
    isElement d = true ->
    parentNode d = Some p ->
    ancestorChain doc p chain ->
    ancestorChain doc el (el :: chain).

(** Whether the node [i] is a scrollable element. *)
Definition scrollableAt (doc : Document) (i : nat) : bool :=
  match nodes doc !! i with
  | Some d => isElement d && scrollableNode d
  | None => false
  end.

(** [a] is a proper ancestor of [el]: reached by one or more
    [parentNode] steps. *)
Inductive properAncestor (doc : Document) : nat -> nat -> Prop :=
| ancestor_parent el d p :
    nodes doc !! el = Some d -> parentNode d = Some p ->
    properAncestor doc el p
| ancestor_step el d p a :
    nodes doc !! el = Some d -> parentNode d = Some p ->
    properAncestor doc p a -> properAncestor doc el a.

(* ===================================================================== *)
(** ** The layout effect of [Nav] *)
(* ===================================================================== *)

(** The three refs of [Nav]; [.current] holds a DOM node or nothing. *)
Record NavRefs := {
  activeItemRef : option nat;
  previousActiveItemRef : option nat;
  scrollRef : option nat
}.

Record NavState := {
  document : Document;
  refs : NavRefs
}.

Definition setScrollTop (v : float) (d : DomNode) : DomNode :=
  {| isElement := isElement d; parentNode := parentNode d; host := host d;
     overflowX := overflowX d; overflowY := overflowY d;
     clientHeight := clientHeight d; scrollHeight := scrollHeight d;
     clientWidth := clientWidth d; scrollWidth := scrollWidth d;
     scrollTop := v; offsetTop := offsetTop d; rectHeight := rectHeight d |}.

(** The statements of the effect after [scrollable] is computed: the two
    rectangles, [top], [bottom], the test and the assignment to
    [scrollable.scrollTop].  Reading [.height] of a missing rectangle is a
    [TypeError]. *)
Definition centerActiveItem (doc : Document) (scrollable : option nat)
    (active : nat) : JS.result Document :=
  match scrollable with
  | None => JS.Throw JS.TypeError
  | Some s =>
      match nodes doc !! s, nodes doc !! active with
      | Some sd, Some ad =>
          if isElement sd && isElement ad then
            let top := offsetTop ad in
            let bottom := (top - rectHeight sd + rectHeight ad)%float in
            if (top <? scrollTop sd)%float || (scrollTop sd <? bottom)%float
            then
              JS.Ok {| nodes :=
                         <[s := setScrollTop
                                  (top - rectHeight sd / 2 + rectHeight ad / 2)%float
                                  sd]> (nodes doc);
                       body := body doc |}
            else JS.Ok doc
          else JS.Throw JS.TypeError
      | _, _ => JS.Throw JS.TypeError
      end
  end.

(** The callback passed to [useIsomorphicLayoutEffect], run on a change of
    [router.pathname]; [fuel] bounds the ancestor walk. *)
Definition layoutEffect (fuel : nat) (st : NavState)
    : option (JS.result NavState) :=
  match activeItemRef (refs st) with
  | None => Some (JS.Ok st)
  | Some active =>
      (* previousActiveItemRef.current = activeItemRef.current *)
      let refs1 := {| activeItemRef := activeItemRef (refs st);
                      previousActiveItemRef := activeItemRef (refs st);
                      scrollRef := scrollRef (refs st) |} in
      if decide (activeItemRef refs1 = previousActiveItemRef refs1) then
        Some (JS.Ok {| document := document st; refs := refs1 |})
      else
        match nearestScrollableContainer fuel (document st) (scrollRef refs1) with
        | None => None
        | Some (JS.Throw e) => Some (JS.Throw e)
        | Some (JS.Ok scrollable) =>
            Some (doc' ← centerActiveItem (document st) scrollable active;
                  JS.Ok {| document := doc'; refs := refs1 |})
        end
  end.

(* ===================================================================== *)
(** ** [DynamicSearchButton], [TopLevelNav], [SidebarLayout] *)
(* ===================================================================== *)

(** A change event of an input: [e.target.value]. *)
Record ChangeEvent := {
  target_value : option jsstring
}.

Section Handlers.

(** The state the callbacks received from outside act on. *)
Context {St : Type}.

(** [handleChange]: [setFilter(e.target.value ?? '')], for the [setFilter]
    of [useSearch()]. *)
Definition handleChange (setFilter : jsstring -> St -> St) (e : ChangeEvent)
    : St -> St :=
  setFilter (default [] (target_value e)).

(** The [onChange] of the text input rendered by [DynamicSearchButton];
    with [config.algolia] set a [SearchButton] is rendered and there is no
    input. *)
Definition DynamicSearchButton_onChange (config : Config)
    (setFilter : jsstring -> St -> St) : option (ChangeEvent -> St -> St) :=
  if algolia config then None else Some (handleChange setFilter).

(** [setNavIsOpen?.(v)] *)
Definition callSetNavIsOpen (setNavIsOpen : option (bool -> St -> St))
    (v : bool) : St -> St :=
  match setNavIsOpen with
  | Some f => f v
  | None => fun s => s
  end.

End Handlers.

(** The props [SidebarLayout] passes to a [Nav]. *)
Record NavProps := {
  np_fallbackHref : option jsstring;
  np_mobile : bool
}.

(** What [SidebarLayout] renders, as far as its props decide it. *)
Record SidebarLayoutView (St : Type) := {
  ctx_navIsOpen : bool;                       (* SidebarContext value *)
  ctx_setNavIsOpen : option (bool -> St -> St);
  wrapper_className : option jsstring;        (* Wrapper *)
  desktop_nav : NavProps;                     (* the 'hidden lg:block' column *)
  dialog_open : bool;                         (* <Dialog open={...}> *)
  dialog_onClose : St -> St;
  close_onClick : St -> St;                     (* the close button *)
  mobile_nav : NavProps                       (* the Nav inside the Dialog *)
}.
Arguments ctx_navIsOpen {St}.
Arguments ctx_setNavIsOpen {St}.
Arguments wrapper_className {St}.
Arguments desktop_nav {St}.
Arguments dialog_open {St}.
Arguments dialog_onClose {St}.
Arguments close_onClick {St}.
Arguments mobile_nav {St}.

(** [SidebarLayout]; [allowOverflow] defaults to [true], the [mobile] prop
    of [Nav] to [false]. *)
Definition SidebarLayout {St : Type} (navIsOpen : bool)
    (setNavIsOpen : option (bool -> St -> St)) (fallbackHref : option jsstring)
    (allowOverflow : option bool) : SidebarLayoutView St :=
  {| ctx_navIsOpen := navIsOpen;
     ctx_setNavIsOpen := setNavIsOpen;
     wrapper_className :=
       if default true allowOverflow then None
       else Some (JS.lit "overflow-hidden");
     desktop_nav := {| np_fallbackHref := fallbackHref; np_mobile := false |};
     dialog_open := navIsOpen;
     dialog_onClose := callSetNavIsOpen setNavIsOpen false;
     close_onClick := callSetNavIsOpen setNavIsOpen false;
     mobile_nav := {| np_fallbackHref := fallbackHref; np_mobile := true |} |}.

(** The props of one [TopLevelLink] built by [TopLevelNav]. *)
Record TopLevelLinkProps := {
  tl_mobile : bool;
  tl_href : jsstring;
  tl_isActive : bool;
  tl_icon : Icon;
  tl_icon_active : bool;
  tl_children : option jsstring
}.

(** The callback of [links.map] in [TopLevelNav].  [link!.url] on a missing
    entry is a [TypeError]; [startsWith(undefined)] searches for the text
    ['undefined']. *)
Definition topLevelLink (pathname : jsstring) (mobile : bool)
    (link : option SidebarLink) : JS.result TopLevelLinkProps :=
  match link with
  | None => JS.Throw JS.TypeError
  | Some l =>
      JS.Ok {| tl_mobile := mobile;
               tl_href := default [] (url l);
               tl_isActive := JS.startsWith pathname (default [] (url l));
               tl_icon := default book (icon l);
               tl_icon_active :=
                 JS.startsWith pathname (default (JS.lit "undefined") (url l));
               tl_children := label l |}
  end.

(** [TopLevelNav]: [config.sidebar?.links!.map(...)].  Without
    [config.sidebar] the chain yields [undefined] and nothing is rendered;
    with a sidebar that has no [links], [.map] is read off [undefined]. *)
Definition TopLevelNav (config : Config) (pathname : jsstring) (mobile : bool)
    : JS.result (option (list TopLevelLinkProps)) :=
  match sidebar config with
  | None => JS.Ok None
  | Some s =>
      match links s with
      | None => JS.Throw JS.TypeError
      | Some ls => ps ← JS.mapM (topLevelLink pathname mobile) ls; JS.Ok (Some ps)
      end
  end.

(** The test of [TopLevelLink], [/^https?:\/\//.test(href)]: the text
    starts with [http://] or with [https://]. *)
Definition isExternalHref (href_ : jsstring) : bool :=
  JS.startsWith href_ (JS.lit "http://")
  || JS.startsWith href_ (JS.lit "https://").

(** What [TopLevelLink] renders: the anchor alone, with the [href], or the
    anchor inside a router [Link] that hands it the [href]. *)
Inductive TopLevelLinkElement :=
| PlainAnchor (href_ : jsstring) (props : TopLevelLinkProps)
| RouterLink (href_ : jsstring) (as_ : option jsstring)
    (props : TopLevelLinkProps).

(** [TopLevelLink]; [props] are the remaining props, passed on to
    [TopLevelAnchor]. *)
Definition TopLevelLink (href_ : jsstring) (as_ : option jsstring)
    (props : TopLevelLinkProps) : TopLevelLinkElement :=
  if isExternalHref href_ then PlainAnchor href_ props
  else RouterLink href_ as_ props.

(** The links of [TopLevelNav] once each [TopLevelLink] is rendered;
    [TopLevelNav] passes no [as]. *)
Definition TopLevelNavLinks (config : Config) (pathname : jsstring)
    (mobile : bool) : JS.result (option (list TopLevelLinkElement)) :=
  r ← TopLevelNav config pathname mobile;
  JS.Ok (match r : option (list TopLevelLinkProps) with
         | Some ps =>
             Some ((fun props => TopLevelLink (tl_href props) None props)
                     <$> ps)
         | None => None
         end).

(** What [Nav] shows below the search box: the top-level links and the
    group sections. *)
Record NavElement := {
  nav_links : option (list TopLevelLinkElement);
  nav_groups : list GroupSection
}.

(** The rendering of [Nav].  The group sections are built in the body of
    [Nav] itself ([filteredNav.groups.map]); [TopLevelNav] and its
    [TopLevelLink]s are components of the returned tree and run after
    it. *)
Definition NavTree (toLowerCase : jsstring -> jsstring) (config : Config)
    (RegExp_test : jsstring -> jsstring -> JS.result bool)
    (fallbackHref : option jsstring) (mobile : bool)
    (pathname filter_ : jsstring) (navigation : Nav) : JS.result NavElement :=
  secs ← NavGroups toLowerCase config RegExp_test fallbackHref pathname
           filter_ navigation;
  els ← TopLevelNavLinks config pathname mobile;
  JS.Ok {| nav_links := els; nav_groups := secs |}.

(* ===================================================================== *)
(** ** Vocabulary of the statements *)
(* ===================================================================== *)

(** [f] occurs in [s] as a substring. *)
Definition isSubstring (f s : jsstring) : Prop :=
  ∃ a b, s = a ++ f ++ b.

(** The text a page is searched in: title and description, without the
    falsy ones, joined by one space, lowercased. *)
Definition searchText (toLowerCase : jsstring -> jsstring) (p : Page)
    : jsstring :=
  toLowerCase
    (JS.join (JS.lit " ") (Radash.sift [title (meta p); description (meta p)])).

(** A string made of white space only (possibly empty). *)
Definition isBlank (s : jsstring) : Prop :=
  Forall (fun c => JS.isWhiteSpace c = true) s.

(** The page [p] is shown by the filtered navigation [r]: it is recorded
    under one of the listed groups. *)
Definition inFiltered (r : FilteredNav) (p : Page) : Prop :=
  ∃ g ps, g ∈ groups r ∧ pages r !! g = Some ps ∧ p ∈ ps.

(** The group names [filtered] can list: the names of
    [config.sidebar.order] when it is configured; otherwise the truthy
    names that [Object.prototype] does not define. *)
Definition groupListed (config : Config) (g : jsstring) : Prop :=
  match sidebarOrder config with
  | Some o => g ∈ o
  | None => g ≠ [] ∧ g ∉ JS.objectPrototypeNames
  end.

(** The regular expression of the page, if it has one, can be built and
    tested against the pathname. *)
Definition testable (RegExp_test : jsstring -> jsstring -> JS.result bool)
    (pathname : jsstring) (p : Page) : Prop :=
  ∀ pattern, match_ (meta p) = Some pattern → pattern ≠ [] →
             ∃ b, RegExp_test pattern pathname = JS.Ok b.

(** [r] is where the ancestor walk over [chain] stops: the first
    scrollable element of the chain, or [document.body] when the chain has
    none. *)
Definition firstScrollableOrBody (doc : Document) (chain : list nat)
    (r : nat) : Prop :=
  (∃ before after,
      chain = before ++ r :: after ∧
      scrollableAt doc r = true ∧
      Forall (fun i => scrollableAt doc i = false) before)
  ∨ (r = body doc ∧ Forall (fun i => scrollableAt doc i = false) chain).

(* ===================================================================== *)
(** ** Sample inputs *)
(* ===================================================================== *)

Module Sample.

Local Open Scope string_scope.

Definition page (t d g pub : option string) (h : string) : Page :=
  {| href := JS.lit h;
     meta := {| title := JS.lit <$> t; description := JS.lit <$> d;
                group := JS.lit <$> g; match_ := None;
                published := JS.lit <$> pub |} |}.

Definition intro : Page :=
  page (Some "Getting Started") (Some "Install the chiller")
       (Some "Guides") None "/docs/intro".
Definition draft : Page :=
  page (Some "Roadmap") None (Some "Guides") (Some "false") "/docs/roadmap".
Definition changelog : Page :=
  page (Some "Changelog") (Some "Release notes") None None "/docs/changelog".
Definition untitled : Page :=
  page None (Some "Notes") (Some "") None "/docs/notes".

Definition navigation : Nav :=
  [(JS.lit "docs", [intro; draft]); (JS.lit "misc", [changelog; untitled])].

(** No [sidebar] in the configuration. *)
Definition plain : Config := {| sidebar := None; algolia := false |}.

(** A sidebar with an [order] naming a group twice, and no [links]. *)
Definition ordered : Config :=
  {| sidebar := Some {| order := Some [JS.lit "Guides"; JS.lit "Guides"; []];
                        links := None |};
     algolia := false |}.

(** A sidebar with two links. *)
Definition linked : Config :=
  {| sidebar :=
       Some {| order := None;
               links := Some [Some {| url := Some (JS.lit "/docs");
                                      label := Some (JS.lit "Docs");
                                      icon := None |};
                              Some {| url := None;
                                      label := Some (JS.lit "Chat");
                                      icon := Some chat |}] |};
     algolia := false |}.

(** A regular-expression engine that accepts no pattern. *)
Definition noRegExp (pattern s : jsstring) : JS.result bool :=
  JS.Throw JS.SyntaxError.

Definition element (parent : option nat) (oy : string) (ch sh : Z)
    (st ot rh : float) : DomNode :=
  {| isElement := true; parentNode := parent; host := None;
     overflowX := JS.lit "visible"; overflowY := JS.lit oy;
     clientHeight := ch; scrollHeight := sh;
     clientWidth := 300; scrollWidth := 300;
     scrollTop := st; offsetTop := ot; rectHeight := rh |}.

Definition documentNode : DomNode :=
  {| isElement := false; parentNode := None; host := None;
     overflowX := []; overflowY := [];
     clientHeight := 0; scrollHeight := 0; clientWidth := 0; scrollWidth := 0;
     scrollTop := 0; offsetTop := 0; rectHeight := 0 |}.

(** document(0) > html(1) > body(2) > div(3) > nav(4) > li(5); the [div]
    is the scrolling column, 400 high with 2000 of content, scrolled to
    the top; the [li] sits 1000 down and is 24 high.  Node 9 is an element
    attached to nothing. *)
Definition dom : Document :=
  {| nodes :=
       list_to_map
         [(0, documentNode);
          (1, element (Some 0) "visible" 800 2400 0 0 2400);
          (2, element (Some 1) "visible" 2400 2400 0 0 2400);
          (3, element (Some 2) "auto" 400 2000 0 0 400);
          (4, element (Some 3) "visible" 2000 2000 0 0 2000);
          (5, element (Some 4) "visible" 24 24 0 1000 24);
          (9, element None "visible" 10 10 0 0 10)]%nat;
     body := 2%nat |}.

(** The same tree where only the root element scrolls
    ([html { overflow-y: scroll }]). *)
Definition domRootScrolls : Document :=
  {| nodes :=
       list_to_map
         [(0, documentNode);
          (1, element (Some 0) "scroll" 800 2400 0 0 2400);
          (2, element (Some 1) "visible" 2400 2400 0 0 2400);
          (3, element (Some 2) "visible" 2400 2400 0 0 2400)]%nat;
     body := 2%nat |}.

(** [Nav] after a route change: the active item is the [li], no item was
    active before. *)
Definition navState : NavState :=
  {| document := dom;
     refs := {| activeItemRef := Some 5%nat;
                previousActiveItemRef := None;
                scrollRef := Some 4%nat |} |}.

(** A sidebar whose only link leaves the site. *)
Definition outbound : Config :=
  {| sidebar :=
       Some {| order := None;
               links := Some [Some {| url := Some (JS.lit "https://github.com/chiller");
                                      label := Some (JS.lit "GitHub");
                                      icon := Some code |}] |};
     algolia := false |}.

(** An order that lists "Guides" once. *)
Definition guidesFirst : Config :=
  {| sidebar := Some {| order := Some [JS.lit "API"; JS.lit "Guides"];
                        links := None |};
     algolia := false |}.

(** The sample navigation with its two entries exchanged. *)
Definition navigationSwapped : Nav :=
  [(JS.lit "misc", [changelog; untitled]); (JS.lit "docs", [intro; draft])].

(** A page whose [match] pattern the sample engine rejects. *)
Definition patterned : Page :=
  {| href := JS.lit "/api";
     meta := {| title := Some (JS.lit "API"); description := None;
                group := Some (JS.lit "Reference");
                match_ := Some (JS.lit "^/api("); published := None |} |}.

(** A page of the group "Reference" that is active below [/api]. *)
Definition reference : Page :=
  {| href := JS.lit "/api";
     meta := {| title := Some (JS.lit "API"); description := None;
                group := Some (JS.lit "Reference");
                match_ := Some (JS.lit "^/api"); published := None |} |}.

(** The guides and the reference page. *)
Definition navigationWithReference : Nav :=
  [(JS.lit "docs", [intro; draft]); (JS.lit "api", [reference])].

(** A page that calls its group "constructor". *)
Definition oddlyGrouped : Page :=
  page (Some "Classes") None (Some "constructor") None "/docs/classes".

(** A small regular-expression engine: it knows the patterns made of [^]
    and a text of letters, digits and slashes, which test for a prefix, and
    rejects every other pattern. *)
Definition anchoredRegExp (pattern s : jsstring) : JS.result bool :=
  match pattern with
  | 94 :: text =>
      if forallb (fun c : N => ((c =? 47) || ((48 <=? c) && (c <=? 57))
                                 || ((65 <=? c) && (c <=? 90))
                                 || ((97 <=? c) && (c <=? 122)))%N) text
      then JS.Ok (JS.startsWith s text)
      else JS.Throw JS.SyntaxError
  | _ => JS.Throw JS.SyntaxError
  end.

End Sample.

(* ===================================================================== *)
(** ** Facts about the string built-ins *)
(* ===================================================================== *)

Section StringFacts.

Implicit Types s f a b : jsstring.

Lemma startsWith_nil s : JS.startsWith s [] = true.
Proof. by destruct s. Qed.

Lemma startsWith_prefix s f : JS.startsWith s f = true ↔ ∃ b, s = f ++ b.
Proof.
  revert s. induction f as [|c f IH]; intros s.
  - rewrite startsWith_nil. split; [eauto|done].
  - destruct s as [|d s]; simpl.
    + split; [done|]. by intros [b ?].
    + rewrite andb_true_iff, N.eqb_eq, IH. split.
      * intros [-> [b ->]]. by exists b.
      * intros [b [= -> ->]]. eauto.
Qed.


(** [includes] is the substring test. *)
Lemma includes_substring s f : JS.includes s f = true ↔ isSubstring f s.
Proof.
  unfold isSubstring. induction s as [|d s IH]; cbn [JS.includes].
  - rewrite orb_false_r, startsWith_prefix. split.
    + intros [b ->]. by exists [], b.
    + intros [a [b H]]. symmetry in H.
      apply app_eq_nil in H as [-> H]. apply app_eq_nil in H as [-> ->].
      by exists [].
  - rewrite orb_true_iff, startsWith_prefix, IH. split.
    + intros [[b ->]|[a [b ->]]]; [by exists [], b|by exists (d :: a), b].
    + intros [[|d' a] [b H]]; simpl in H.
      * left. eauto.
      * right. injection H as -> ->. eauto.
Qed.

Lemma trimStart_blank s : isBlank s → JS.trimStart s = [].
Proof. induction 1 as [|c s Hc _ IH]; simpl; [done|by rewrite Hc]. Qed.


End StringFacts.

(* ===================================================================== *)
(** ** Facts about the radash helpers *)
(* ===================================================================== *)

Section RadashFacts.

Lemma elem_of_sift (l : list (option jsstring)) (x : jsstring) :
  x ∈ Radash.sift l ↔ Some x ∈ l ∧ x ≠ [].
Proof.
  unfold Radash.sift. rewrite list_elem_of_omap. split.
  - intros [v [Hv Hx]]. destruct v as [[|c v]|]; simplify_eq/=. done.
  - intros [Hx Hne]. exists (Some x). split; [done|].
    destruct x; [done|reflexivity].
Qed.

Lemma insertIndexName_Permutation k (l : list jsstring) :
  JS.insertIndexName k l ≡ₚ k :: l.
Proof.
  induction l as [|h t IH]; simpl; [done|].
  case_match; [done|]. rewrite IH. apply Permutation_swap.
Qed.

(** [Object.values] visits every own property once. *)
Lemma ownPropertyOrder_Permutation (created : list jsstring) :
  JS.ownPropertyOrder created ≡ₚ created.
Proof.
  unfold JS.ownPropertyOrder.
  rewrite <- (filter_app_complement (fun k => is_Some (JS.arrayIndex k))
                created) at 3.
  apply Permutation_app; [|done].
  induction (filter _ created) as [|k l IH]; simpl; [done|].
  by rewrite insertIndexName_Permutation, IH.
Qed.

Lemma unique_fold (l acc : list jsstring) :
  NoDup acc →
  NoDup (foldl Radash.uniqueStep acc l) ∧
  ∀ x, x ∈ foldl Radash.uniqueStep acc l ↔
       x ∈ acc ∨ (x ∈ l ∧ x ∉ JS.objectPrototypeNames).
Proof.
  revert acc. induction l as [|y l IH]; intros acc Hacc; simpl.
  - split; [done|]. intros x. rewrite elem_of_nil. tauto.
  - unfold Radash.uniqueStep at 2 4.
    destruct (decide (y ∈ JS.objectPrototypeNames)) as [Hp|Hp];
      [|destruct (decide (y ∈ acc)) as [Hy|Hy]].
    + destruct (IH acc Hacc) as [Hnd Hel]. split; [done|].
      intros x. rewrite Hel, elem_of_cons.
      split; [tauto|]. intros [?|[[->|?] ?]]; tauto.
    + destruct (IH acc Hacc) as [Hnd Hel]. split; [done|].
      intros x. rewrite Hel, elem_of_cons.
      split; [tauto|]. intros [?|[[->|?] ?]]; auto.
    + assert (NoDup (acc ++ [y])) as Hacc'.
      { apply NoDup_app. split_and!; [done| |apply NoDup_singleton].
        intros x Hx ->%list_elem_of_singleton. done. }
      destruct (IH _ Hacc') as [Hnd Hel]. split; [done|].
      intros x. rewrite Hel, elem_of_app, list_elem_of_singleton, elem_of_cons.
      split; [|tauto]. intros [[?| ->]|?]; tauto.
Qed.

Lemma NoDup_unique (l : list jsstring) : NoDup (Radash.unique l).
Proof.
  unfold Radash.unique. rewrite ownPropertyOrder_Permutation.
  apply (unique_fold l []), NoDup_nil_2.
Qed.

(** [unique] keeps the names of the array that [Object.prototype] does not
    define. *)
Lemma elem_of_unique (l : list jsstring) x :
  x ∈ Radash.unique l ↔ x ∈ l ∧ x ∉ JS.objectPrototypeNames.
Proof.
  destruct (unique_fold l [] (NoDup_nil_2)) as [_ H].
  unfold Radash.unique. rewrite ownPropertyOrder_Permutation, H, elem_of_nil.
  tauto.
Qed.

Lemma objectify_fold {V} (v : jsstring → V) (l : list jsstring)
    (m : gmap jsstring V) (k : jsstring) :
  foldl (fun acc g => <[g := v g]> acc) m l !! k
  = if decide (k ∈ l) then Some (v k) else m !! k.
Proof.
  revert m. induction l as [|g l IH]; intros m; cbn [foldl].
  - case_decide as Hk; [by apply elem_of_nil in Hk|done].
  - rewrite IH. destruct (decide (k ∈ l)) as [Hk|Hk].
    + case_decide as H; [done|]. exfalso. apply H. by right.
    + destruct (decide (k = g)) as [->|Hne].
      * rewrite lookup_insert_eq.
        case_decide as H; [done|]. exfalso. apply H. by left.
      * rewrite lookup_insert_ne by done.
        case_decide as H; [|done]. apply elem_of_cons in H. tauto.
Qed.

(** Looking a key up in [objectify(keys, k => k, v)]. *)
Lemma lookup_objectify {V} (v : jsstring → V) (l : list jsstring) k :
  Radash.objectify l (fun g => g) v !! k
  = if decide (k ∈ l) then Some (v k) else None.
Proof. unfold Radash.objectify. by rewrite objectify_fold, lookup_empty. Qed.

End RadashFacts.

(* ===================================================================== *)
(** ** [filtered]: which pages and which groups *)
(* ===================================================================== *)

Section FilteredFacts.

Variable toLowerCase : jsstring -> jsstring.
Variable config : Config.

Implicit Types (p : Page) (g f : jsstring) (n : Nav) (mp : list Page).

Lemma elem_of_matchPages f n p :
  p ∈ matchPages toLowerCase f n ↔
  p ∈ allPages n ∧
  isSubstring (toLowerCase (JS.trim f)) (searchText toLowerCase p).
Proof.
  unfold matchPages. rewrite list_elem_of_filter.
  unfold pageMatches. rewrite includes_substring. unfold searchText. tauto.
Qed.

(** [matchPages.find(p => p.meta.group === g)] is truthy exactly when a
    page of the group exists. *)
Lemma find_group_is_Some mp g :
  is_Some (List.find (fun p => bool_decide (group (meta p) = Some g)) mp) ↔
  ∃ p, p ∈ mp ∧ group (meta p) = Some g.
Proof.
  split.
  - intros [p Hp]. apply List.find_some in Hp as [Hin Hg].
    exists p. split; [by apply list_elem_of_In|by apply bool_decide_eq_true in Hg].
  - intros [p [Hin Hg]].
    destruct (List.find _ mp) as [q|] eqn:Hf; [by eexists|].
    apply list_elem_of_In in Hin.
    pose proof (List.find_none _ _ Hf p Hin) as Hb; simpl in Hb.
    apply bool_decide_eq_false in Hb. done.
Qed.

Lemma elem_of_groupsOf mp g :
  g ∈ groupsOf config mp ↔
  groupListed config g ∧ ∃ p, p ∈ mp ∧ group (meta p) = Some g.
Proof.
  unfold groupsOf, groupListed. destruct (sidebarOrder config) as [o|].
  - rewrite list_elem_of_filter, find_group_is_Some. tauto.
  - rewrite elem_of_unique, elem_of_sift, list_elem_of_fmap. split.
    + intros [[[p [Hg Hp]] Hne] Hproto]. eauto.
    + intros [[Hne Hproto] [p [Hp Hg]]]. eauto.
Qed.

Lemma lookup_pages f n g :
  pages (filtered toLowerCase config f n) !! g
  = if decide (g ∈ groups (filtered toLowerCase config f n))
    then Some (filter (fun p => group (meta p) = Some g)
                 (matchPages toLowerCase f n))
    else None.
Proof.
  unfold filtered; cbn [pages groups].
  exact (lookup_objectify
           (fun g => filter (fun p => group (meta p) = Some g)
                       (matchPages toLowerCase f n)) _ g).
Qed.

(** The pages shown: the matching pages whose group is listed. *)
Lemma inFiltered_iff f n p :
  inFiltered (filtered toLowerCase config f n) p ↔
  p ∈ matchPages toLowerCase f n ∧
  ∃ g, group (meta p) = Some g ∧ groupListed config g.
Proof.
  unfold inFiltered. split.
  - intros (g & ps & Hg & Hps & Hp).
    rewrite lookup_pages, decide_True in Hps by done.
    injection Hps as <-. apply list_elem_of_filter in Hp as [Hpg Hp].
    split; [done|]. exists g. split; [done|].
    cbn [filtered groups] in Hg. by apply elem_of_groupsOf in Hg as [? _].
  - intros (Hp & g & Hpg & Hg).
    assert (g ∈ groups (filtered toLowerCase config f n)) as Hin.
    { cbn [filtered groups]. apply elem_of_groupsOf. eauto. }
    exists g, (filter (fun p => group (meta p) = Some g)
                 (matchPages toLowerCase f n)).
    split_and!; [done| |by apply list_elem_of_filter].
    by rewrite lookup_pages, decide_True.
Qed.


End FilteredFacts.



(** A group called "constructor" is not listed when no order is configured:
    the page is dropped although it matches and has a truthy group. *)
Lemma filtered_drops_group_named_constructor :
  matchPages JS.asciiLower [] [(JS.lit "docs", [Sample.oddlyGrouped])]
  = [Sample.oddlyGrouped] ∧
  groups (filtered JS.asciiLower Sample.plain []
            [(JS.lit "docs", [Sample.oddlyGrouped])]) = [] ∧
  ¬ inFiltered (filtered JS.asciiLower Sample.plain []
                  [(JS.lit "docs", [Sample.oddlyGrouped])])
      Sample.oddlyGrouped.
Proof.
  split_and!; [vm_compute; reflexivity|vm_compute; reflexivity|].
  rewrite inFiltered_iff. intros [_ (g & [= <-] & _ & Hproto)].
  apply Hproto. left.
Qed.




(* ===================================================================== *)
(** ** What [Nav] renders *)
(* ===================================================================== *)

Lemma mapM_Ok {A B} (f : A → JS.result B) (l : list A) (ys : list B) :
  JS.mapM f l = JS.Ok ys → Forall2 (fun x y => f x = JS.Ok y) l ys.
Proof.
  revert ys. induction l as [|x l IH]; intros ys; simpl.
  - intros [= <-]. constructor.
  - destruct (f x) as [y|e] eqn:Hx; simpl; [|done].
    destruct (JS.mapM f l) as [ys'|e]; simpl; [|done].
    intros [= <-]. constructor; [done|by apply IH].
Qed.

Section NavFacts.

Variable toLowerCase : jsstring -> jsstring.
Variable config : Config.
Variable RegExp_test : jsstring -> jsstring -> JS.result bool.

(** A rendered section comes from a listed group and the pages recorded
    under it, item by item. *)
Lemma renderGroup_Ok fallbackHref pathname (r : FilteredNav) g sec :
  renderGroup RegExp_test fallbackHref pathname r g = JS.Ok sec →
  ∃ ps, pages r !! g = Some ps ∧
        gs_key sec = g ∧
        gs_heading_muted sec = bool_decide (length ps = 0%nat) ∧
        gs_heading_strong sec = bool_decide (0 < length ps)%nat ∧
        Forall2 (fun item el =>
                   renderNavItem RegExp_test fallbackHref pathname item
                   = JS.Ok el) ps (gs_items sec).
Proof.
  unfold renderGroup. destruct (pages r !! g) as [ps|]; [|done].
  destruct (JS.mapM _ ps) as [items|e] eqn:Hitems; simpl; [|done].
  intros [= <-]. exists ps. split_and!; try done. by apply mapM_Ok.
Qed.

Lemma NavGroups_Ok fallbackHref pathname f n secs sec :
  NavGroups toLowerCase config RegExp_test fallbackHref pathname f n
  = JS.Ok secs →
  sec ∈ secs →
  ∃ g, g ∈ groups (filtered toLowerCase config f n) ∧
       renderGroup RegExp_test fallbackHref pathname
         (filtered toLowerCase config f n) g = JS.Ok sec.
Proof.
  unfold NavGroups. intros H%mapM_Ok Hsec.
  apply list_elem_of_lookup in Hsec as [i Hi].
  destruct (Forall2_lookup_r _ _ _ _ _ H Hi) as (g & Hg & Hr).
  exists g. split; [|done]. apply list_elem_of_lookup. eauto.
Qed.

Lemma renderNavItem_link fallbackHref pathname item el :
  renderNavItem RegExp_test fallbackHref pathname item = JS.Ok el →
  link_href el
  = if bool_decide (published (meta item) ≠ Some (JS.lit "false"))
    then href item else default [] fallbackHref.
Proof.
  unfold renderNavItem.
  destruct (isActiveItem _ _ _) as [b|e]; simpl; [|done]. by intros [= <-].
Qed.

End NavFacts.

(** C9 (as amended).  In every result of [filtered]: each listed group has
    at least one matching page; the pages recorded under a listed group [g]
    are exactly the matching pages whose [meta.group] equals [g]; every
    group heading [Nav] renders has the non-empty style.  Without
    [config.sidebar.order] the list of groups is duplicate-free and holds
    truthy names only; with an order [o] configured it is [o] itself with
    the names that have no matching page left out, so a name stands in it
    as often as in [o], and an empty name of [o] stays. *)
Theorem C9_filtered_groups_invariant
    (toLowerCase : jsstring -> jsstring) (config : Config)
    (f : jsstring) (n : Nav) :
  (∀ g, g ∈ groups (filtered toLowerCase config f n) →
        ∃ p, p ∈ matchPages toLowerCase f n ∧ group (meta p) = Some g) ∧
  (∀ g, g ∈ groups (filtered toLowerCase config f n) →
        pages (filtered toLowerCase config f n) !! g
        = Some (filter (fun p => group (meta p) = Some g)
                  (matchPages toLowerCase f n))) ∧
  (∀ RegExp_test fallbackHref pathname secs sec,
        NavGroups toLowerCase config RegExp_test fallbackHref pathname f n
        = JS.Ok secs →
        sec ∈ secs →
        gs_heading_muted sec = false ∧ gs_heading_strong sec = true) ∧
  (sidebarOrder config = None →
        NoDup (groups (filtered toLowerCase config f n)) ∧
        ∀ g, g ∈ groups (filtered toLowerCase config f n) →
             JS.truthy (Some g) = true) ∧
  (∀ o, sidebarOrder config = Some o →
        groups (filtered toLowerCase config f n)
        = filter (fun g => Some g ∈ (fun p => group (meta p))
                                     <$> matchPages toLowerCase f n) o).
Proof.
  assert (∀ g, g ∈ groups (filtered toLowerCase config f n) →
               ∃ p, p ∈ matchPages toLowerCase f n ∧ group (meta p) = Some g)
    as Hhas.
  { intros g Hg. cbn [filtered groups] in Hg.
    by apply elem_of_groupsOf in Hg as [_ ?]. }
  split_and!.
  - exact Hhas.
  - intros g Hg. by rewrite lookup_pages, decide_True.
  - intros RegExp_test fallbackHref pathname secs sec Hsecs Hsec.
    destruct (NavGroups_Ok _ _ _ _ _ _ _ _ _ Hsecs Hsec) as (g & Hg & Hr).
    apply renderGroup_Ok in Hr as (ps & Hps & _ & -> & -> & _).
    rewrite lookup_pages, decide_True in Hps by done. injection Hps as <-.
    destruct (Hhas g Hg) as (p & Hp & Hpg).
    assert (p ∈ filter (fun p => group (meta p) = Some g)
                  (matchPages toLowerCase f n)) as Hin
      by (by apply list_elem_of_filter).
    destruct (filter _ _) as [|q ps]; [by apply elem_of_nil in Hin|].
    split; [by apply bool_decide_eq_false|apply bool_decide_eq_true; simpl; lia].
  - intros Ho. unfold filtered, groupsOf; cbn [groups]. rewrite Ho. split.
    + apply NoDup_unique.
    + intros g [[_ Hg]%elem_of_sift _]%elem_of_unique. by destruct g.
  - intros o Ho. unfold filtered, groupsOf; cbn [groups]. rewrite Ho.
    apply list_filter_iff. intros g.
    rewrite find_group_is_Some, list_elem_of_fmap. split.
    + intros (p & Hp & Hg). eauto.
    + intros (p & Hg & Hp). eauto.
Qed.

(** C9, counterexample.  With [config.sidebar.order] naming "Guides" twice
    and the empty name once, and an empty filter, the groups of the sample
    navigation are "Guides", "Guides" and the empty name: the list has a
    duplicate and a falsy name. *)
Lemma C9_ordered_groups_repeat_and_falsy :
  groups (filtered JS.asciiLower Sample.ordered [] Sample.navigation)
  = [JS.lit "Guides"; JS.lit "Guides"; []] ∧
  ¬ NoDup (groups (filtered JS.asciiLower Sample.ordered [] Sample.navigation)) ∧
  (∃ g, g ∈ groups (filtered JS.asciiLower Sample.ordered [] Sample.navigation)
        ∧ JS.truthy (Some g) = false).
Proof.
  assert (groups (filtered JS.asciiLower Sample.ordered [] Sample.navigation)
          = [JS.lit "Guides"; JS.lit "Guides"; []]) as ->
    by (vm_compute; reflexivity).
  split_and!.
  - reflexivity.
  - intros H. apply NoDup_cons in H as [H _]. apply H. left.
  - exists []. split; [|done]. do 2 right. left.
Qed.

(** C10.  For every nav item rendered by [Nav], from the page [item] of a
    listed group: the link target is the page's own [href] when
    [item.meta.published] is not the string ['false']; otherwise it is the
    [fallbackHref] given to the layout, or the empty string when none is
    given. *)
Theorem C10_nav_item_link_target
    (toLowerCase : jsstring -> jsstring) (config : Config)
    (RegExp_test : jsstring -> jsstring -> JS.result bool)
    (fallbackHref : option jsstring) (pathname f : jsstring) (n : Nav)
    (secs : list GroupSection) (sec : GroupSection) :
  NavGroups toLowerCase config RegExp_test fallbackHref pathname f n
  = JS.Ok secs →
  sec ∈ secs →
  ∃ items,
    pages (filtered toLowerCase config f n) !! gs_key sec = Some items ∧
    Forall2
      (fun item el =>
         (published (meta item) ≠ Some (JS.lit "false") →
          link_href el = href item) ∧
         (published (meta item) = Some (JS.lit "false") →
          link_href el = match fallbackHref with
                         | Some h => h
                         | None => []
                         end))
      items (gs_items sec).
Proof.
  intros Hsecs Hsec.
  destruct (NavGroups_Ok _ _ _ _ _ _ _ _ _ Hsecs Hsec) as (g & Hg & Hr).
  apply renderGroup_Ok in Hr as (ps & Hps & -> & _ & _ & Hitems).
  exists ps. split; [done|].
  eapply Forall2_impl; [exact Hitems|].
  intros item el Hel%renderNavItem_link. rewrite Hel. split; intros Hp.
  - by rewrite bool_decide_eq_true_2.
  - rewrite bool_decide_eq_false_2 by (intros H; by apply H).
    by destruct fallbackHref.
Qed.

(** C10, witness: the sample navigation rendered at [/docs/intro] with the
    fallback [/soon]; its first section holds the published "Getting
    Started" and the unpublished "Roadmap". *)
Lemma C10_nav_item_link_target_witness :
  ∃ secs sec,
    NavGroups JS.asciiLower Sample.plain Sample.noRegExp
      (Some (JS.lit "/soon")) (JS.lit "/docs/intro") [] Sample.navigation
    = JS.Ok secs ∧
    sec ∈ secs ∧
    link_href <$> gs_items sec = [JS.lit "/docs/intro"; JS.lit "/soon"] ∧
    ∃ items,
      pages (filtered JS.asciiLower Sample.plain [] Sample.navigation)
        !! gs_key sec = Some items ∧
      Forall2
        (fun item el =>
           (published (meta item) ≠ Some (JS.lit "false") →
            link_href el = href item) ∧
           (published (meta item) = Some (JS.lit "false") →
            link_href el = JS.lit "/soon"))
        items (gs_items sec).
Proof.
  eexists _, _.
  split; [vm_compute; reflexivity|].
  split; [left|].
  split; [vm_compute; reflexivity|].
  eapply (C10_nav_item_link_target JS.asciiLower Sample.plain Sample.noRegExp
            (Some (JS.lit "/soon")) (JS.lit "/docs/intro") [] Sample.navigation).
  - vm_compute. reflexivity.
  - left.
Defined.

(* ===================================================================== *)
(** ** [nearestScrollableContainer]: the ancestor walk *)
(* ===================================================================== *)

Section WalkFacts.

Variable doc : Document.

Lemma isScrollable_element el d :
  nodes doc !! el = Some d → isElement d = true →
  isScrollable doc (Some el) = JS.Ok (scrollableAt doc el).
Proof.
  intros Hd He. unfold isScrollable, scrollableAt; simpl. by rewrite Hd, He.
Qed.

(** [getComputedStyle(undefined)] *)
Lemma nearestScrollableContainer_undefined fuel :
  nearestScrollableContainer (S fuel) doc None = Some (JS.Throw JS.TypeError).
Proof. reflexivity. Qed.

(** An element without parent or host that is neither [document.body] nor
    scrollable: the walk moves on to [undefined]. *)
Lemma nearestScrollableContainer_detached el d fuel :
  el ≠ body doc →
  nodes doc !! el = Some d →
  isElement d = true →
  scrollableNode d = false →
  parentNode d = None →
  host d = None →
  nearestScrollableContainer (S (S fuel)) doc (Some el)
  = Some (JS.Throw JS.TypeError).
Proof.
  intros Hne Hd He Hs Hp Hh. cbn [nearestScrollableContainer].
  rewrite decide_False by congruence.
  rewrite (isScrollable_element el d Hd He).
  unfold scrollableAt. rewrite Hd, He, Hs. cbn [andb].
  unfold parentOrHost. by rewrite Hd, Hp, Hh.
Qed.

(** The three ways one test of the loop condition can go on an element. *)
Lemma walk_body fuel :
  nearestScrollableContainer (S fuel) doc (Some (body doc))
  = Some (JS.Ok (Some (body doc))).
Proof. simpl. by rewrite decide_True. Qed.

Lemma walk_stop el d fuel :
  el ≠ body doc → nodes doc !! el = Some d → isElement d = true →
  scrollableAt doc el = true →
  nearestScrollableContainer (S fuel) doc (Some el) = Some (JS.Ok (Some el)).
Proof.
  intros Hne Hd He Hs. cbn [nearestScrollableContainer].
  rewrite decide_False by congruence.
  by rewrite (isScrollable_element el d Hd He), Hs.
Qed.

Lemma walk_up el d p fuel :
  el ≠ body doc → nodes doc !! el = Some d → isElement d = true →
  scrollableAt doc el = false → parentNode d = Some p →
  nearestScrollableContainer (S fuel) doc (Some el)
  = nearestScrollableContainer fuel doc (Some p).
Proof.
  intros Hne Hd He Hs Hp. cbn [nearestScrollableContainer].
  rewrite decide_False by congruence.
  rewrite (isScrollable_element el d Hd He), Hs.
  unfold parentOrHost. by rewrite Hd, Hp.
Qed.

(** On [document.body] and below it the walk returns an element, with any
    fuel beyond the length of the chain. *)
Lemma nearestScrollableContainer_returns el chain :
  ancestorChain doc el chain →
  ∃ r, ∀ fuel, (length chain < fuel)%nat →
               nearestScrollableContainer fuel doc (Some el)
               = Some (JS.Ok r).
Proof.
  induction 1 as [|el d p chain Hne Hd He Hp Hchain [r IH]].
  - exists (Some (body doc)). intros [|fuel] Hf; [simpl in Hf; lia|].
    apply walk_body.
  - destruct (scrollableAt doc el) eqn:Hs.
    + exists (Some el). intros [|fuel] Hf; [simpl in Hf; lia|].
      by apply (walk_stop el d).
    + exists r. intros [|fuel] Hf; [simpl in Hf; lia|].
      rewrite (walk_up el d p) by done. apply IH. simpl in Hf. lia.
Qed.

End WalkFacts.

Ltac climb :=
  eapply chain_step;
  [ done | vm_compute; reflexivity | reflexivity | reflexivity | ].

(** C6 (as amended).  For [document.body] and every element below it, the
    ancestor-walking loop of [nearestScrollableContainer] terminates: with
    [chain] the elements from the given one up to, and without,
    [document.body], any fuel above the length of [chain] yields a result,
    and it is the first element of [chain] that is scrollable (overflow
    [auto] or [scroll] with content exceeding the client box in that axis),
    or [document.body] if the chain has none.  Ancestors of
    [document.body] are not examined. *)
Theorem C6_ancestor_walk_terminates
    (doc : Document) (el : nat) (chain : list nat) :
  ancestorChain doc el chain →
  ∃ r, firstScrollableOrBody doc chain r ∧
       ∀ fuel, (length chain < fuel)%nat →
               nearestScrollableContainer fuel doc (Some el)
               = Some (JS.Ok (Some r)).
Proof.
  induction 1 as [|el d p chain Hne Hd He Hp Hchain (r & Hr & IH)].
  - (* the walk starts on document.body *)
    exists (body doc). split; [right; by split|].
    intros [|fuel] Hf; [simpl in Hf; lia|]. apply walk_body.
  - destruct (scrollableAt doc el) eqn:Hs.
    + (* the element itself scrolls *)
      exists el. split.
      { left. exists [], chain. by split_and!. }
      intros [|fuel] Hf; [simpl in Hf; lia|]. by apply (walk_stop doc el d).
    + (* the walk moves to the parent, one unit of fuel spent *)
      exists r. split.
      { destruct Hr as [(before & after & -> & Hr & Hb)|[-> Hall]].
        - left. exists (el :: before), after. split_and!; [done|done|].
          by constructor.
        - right. split; [done|]. by constructor. }
      intros [|fuel] Hf; [simpl in Hf; lia|].
      rewrite (walk_up doc el d p) by done. apply IH. simpl in Hf. lia.
Qed.

(** C6, witness: from the [li] of the sample document the chain is
    [li], [nav], [div]. *)
Lemma C6_ancestor_walk_witness :
  ancestorChain Sample.dom 5%nat [5; 4; 3]%nat ∧
  ∃ r, firstScrollableOrBody Sample.dom [5; 4; 3]%nat r ∧
       ∀ fuel, (3 < fuel)%nat →
               nearestScrollableContainer fuel Sample.dom (Some 5%nat)
               = Some (JS.Ok (Some r)).
Proof.
  assert (ancestorChain Sample.dom 5%nat [5; 4; 3]%nat) as H.
  { do 3 climb. apply (chain_body Sample.dom). }
  split; [exact H|].
  exact (C6_ancestor_walk_terminates Sample.dom 5%nat [5; 4; 3]%nat H).
Defined.

(** C6, counterexample.  In the sample document whose root element alone
    scrolls, the walk from the [div] below [document.body] returns
    [document.body], which is not scrollable, although the root element, an
    ancestor of the [div], is. *)
Lemma C6_scrollable_root_is_not_reached :
  ancestorChain Sample.domRootScrolls 3%nat [3%nat] ∧
  (∀ fuel, (1 < fuel)%nat →
           nearestScrollableContainer fuel Sample.domRootScrolls (Some 3%nat)
           = Some (JS.Ok (Some (body Sample.domRootScrolls)))) ∧
  scrollableAt Sample.domRootScrolls 3%nat = false ∧
  scrollableAt Sample.domRootScrolls (body Sample.domRootScrolls) = false ∧
  properAncestor Sample.domRootScrolls 3%nat 1%nat ∧
  scrollableAt Sample.domRootScrolls 1%nat = true.
Proof.
  split_and!.
  - climb. apply (chain_body Sample.domRootScrolls).
  - intros [|[|fuel]] Hf; [lia|lia|]. vm_compute. reflexivity.
  - vm_compute. reflexivity.
  - vm_compute. reflexivity.
  - eapply ancestor_step; [vm_compute; reflexivity|reflexivity|].
    eapply ancestor_parent; [vm_compute; reflexivity|reflexivity].
  - vm_compute. reflexivity.
Qed.

(* ===================================================================== *)
(** ** [TopLevelNav] and the functions that can throw *)
(* ===================================================================== *)

Lemma mapM_is_Ok {A B} (f : A → JS.result B) (l : list A) :
  (∃ ys, JS.mapM f l = JS.Ok ys) ↔ Forall (fun x => ∃ y, f x = JS.Ok y) l.
Proof.
  induction l as [|x l IH]; simpl.
  - split; [constructor|eauto].
  - rewrite Forall_cons, <- IH. split.
    + intros [ys H]. destruct (f x) as [y|e]; simpl in H; [|done].
      destruct (JS.mapM f l) as [ys'|e]; simpl in H; [|done]. eauto.
    + intros [[y ->] [ys ->]]; simpl. eauto.
Qed.

Lemma mapM_Throw {A B} (f : A → JS.result B) (l : list A) e :
  JS.mapM f l = JS.Throw e → ∃ x, x ∈ l ∧ f x = JS.Throw e.
Proof.
  induction l as [|x l IH]; simpl; [done|].
  destruct (f x) as [y|e'] eqn:Hx; simpl.
  - destruct (JS.mapM f l) as [ys|e'']; simpl; [done|].
    intros [= ->]. destruct IH as (x' & Hin & Hx'); [done|].
    exists x'. split; [by right|done].
  - intros [= ->]. exists x. split; [by left|done].
Qed.

Lemma topLevelLink_is_Ok pathname mobile (link : option SidebarLink) :
  (∃ props, topLevelLink pathname mobile link = JS.Ok props) ↔ is_Some link.
Proof.
  destruct link as [l|]; simpl.
  - split; eauto.
  - split; [by intros [? ?]|by intros [? ?]].
Qed.

Lemma TopLevelNav_is_Ok config pathname mobile :
  (∃ r, TopLevelNav config pathname mobile = JS.Ok r) ↔
  sidebar config = None ∨
  ∃ s ls, sidebar config = Some s ∧ links s = Some ls ∧ Forall is_Some ls.
Proof.
  unfold TopLevelNav. destruct (sidebar config) as [s|].
  - destruct (links s) as [ls|] eqn:Hls.
    + transitivity (∃ ys, JS.mapM (topLevelLink pathname mobile) ls = JS.Ok ys).
      * split.
        -- intros [r H]. destruct (JS.mapM _ ls) as [ys|e]; [eauto|done].
        -- intros [ys ->]. simpl. eauto.
      * rewrite mapM_is_Ok. split.
        -- intros H. right. exists s, ls. split_and!; [done|done|].
           eapply Forall_impl; [exact H|]. intros link.
           apply topLevelLink_is_Ok.
        -- intros [?|(s' & ls' & [= <-] & Hls' & H)]; [done|].
           rewrite Hls in Hls'. injection Hls' as <-.
           eapply Forall_impl; [exact H|]. intros link.
           apply topLevelLink_is_Ok.
    + split; [by intros [? ?]|].
      intros [?|(s' & ls' & [= <-] & Hls' & _)]; [done|].
      by rewrite Hls in Hls'.
  - split; [by left|eauto].
Qed.

(** [TopLevelNav] throws nothing but a [TypeError]. *)
Lemma TopLevelNav_Throw config pathname mobile e :
  TopLevelNav config pathname mobile = JS.Throw e → e = JS.TypeError.
Proof.
  unfold TopLevelNav. destruct (sidebar config) as [s|]; [|done].
  destruct (links s) as [ls|]; [|by intros [= <-]].
  destruct (JS.mapM _ ls) as [ps|e'] eqn:Hps; simpl; [done|].
  intros [= ->]. apply mapM_Throw in Hps as ([l|] & _ & Hl); simpl in Hl.
  - done.
  - by injection Hl as <-.
Qed.

(** Rendering the [TopLevelLink]s adds no exception. *)
Lemma TopLevelNavLinks_Throw config pathname mobile e :
  TopLevelNavLinks config pathname mobile = JS.Throw e ↔
  TopLevelNav config pathname mobile = JS.Throw e.
Proof.
  unfold TopLevelNavLinks.
  destruct (TopLevelNav config pathname mobile) as [r|e']; simpl.
  - split; intros; discriminate.
  - split; by intros [= ->].
Qed.

Lemma TopLevelNavLinks_is_Ok config pathname mobile :
  (∃ els, TopLevelNavLinks config pathname mobile = JS.Ok els) ↔
  ∃ r, TopLevelNav config pathname mobile = JS.Ok r.
Proof.
  unfold TopLevelNavLinks.
  destruct (TopLevelNav config pathname mobile) as [r|e']; simpl.
  - split; eauto.
  - split; by intros [? ?].
Qed.

Section NavThrows.

Variable toLowerCase : jsstring -> jsstring.
Variable config : Config.
Variable RegExp_test : jsstring -> jsstring -> JS.result bool.
Variable fallbackHref : option jsstring.
Variable pathname : jsstring.

Lemma renderNavItem_is_Ok (item : Page) :
  (∃ el, renderNavItem RegExp_test fallbackHref pathname item = JS.Ok el) ↔
  testable RegExp_test pathname item.
Proof.
  unfold renderNavItem, isActiveItem, testable.
  destruct (match_ (meta item)) as [[|c m]|]; simpl.
  - split; [by intros _ pattern [= <-]|eauto].
  - split.
    + intros [el Hel] pattern [= <-] _.
      destruct (RegExp_test (c :: m) pathname) as [b|e]; [eauto|done].
    + intros H. destruct (H (c :: m)) as [b ->]; [done|done|]. simpl. eauto.
  - split; [by intros _ pattern|eauto].
Qed.

Lemma renderGroup_is_Ok (r : FilteredNav) g ps :
  pages r !! g = Some ps →
  (∃ sec, renderGroup RegExp_test fallbackHref pathname r g = JS.Ok sec) ↔
  Forall (testable RegExp_test pathname) ps.
Proof.
  intros Hps. unfold renderGroup. rewrite Hps.
  rewrite <- (Forall_iff _ ps _ renderNavItem_is_Ok), <- mapM_is_Ok.
  destruct (JS.mapM _ ps) as [items|e]; simpl.
  - split; eauto.
  - split; by intros [? ?].
Qed.

(** A group section throws what the regular expression of one of its pages
    throws, or a [TypeError] when nothing is recorded under the name. *)
Lemma renderGroup_Throw (r : FilteredNav) g e :
  renderGroup RegExp_test fallbackHref pathname r g = JS.Throw e →
  pages r !! g = None ∨
  ∃ ps p pattern,
    pages r !! g = Some ps ∧ p ∈ ps ∧ match_ (meta p) = Some pattern ∧
    pattern ≠ [] ∧ RegExp_test pattern pathname = JS.Throw e.
Proof.
  unfold renderGroup. destruct (pages r !! g) as [ps|]; [|by left].
  destruct (JS.mapM _ ps) as [items|e'] eqn:Hitems; simpl; [done|].
  intros [= ->]. right. apply mapM_Throw in Hitems as (p & Hp & Hitem).
  unfold renderNavItem, isActiveItem in Hitem.
  destruct (match_ (meta p)) as [[|c m]|] eqn:Hm; simpl in Hitem; try done.
  destruct (RegExp_test (c :: m) pathname) as [b|e'] eqn:Hre;
    simpl in Hitem; [done|]. injection Hitem as ->.
  by exists ps, p, (c :: m).
Qed.

(** The group list of [Nav] is rendered exactly when the regular expression
    of every page shown can be tested. *)
Lemma NavGroups_is_Ok f n :
  (∃ secs, NavGroups toLowerCase config RegExp_test fallbackHref pathname f n
           = JS.Ok secs) ↔
  ∀ p, inFiltered (filtered toLowerCase config f n) p →
       testable RegExp_test pathname p.
Proof.
  unfold NavGroups. rewrite mapM_is_Ok, Forall_forall. split.
  - intros H p (g & ps & Hg & Hps & Hp).
    apply (renderGroup_is_Ok _ g ps Hps) in H; [|done].
    by apply (proj1 (Forall_forall _ _) H).
  - intros H g Hg.
    pose proof (lookup_pages toLowerCase config f n g) as Hps.
    rewrite decide_True in Hps by done.
    apply (renderGroup_is_Ok _ g _ Hps). apply Forall_forall. intros p Hp.
    apply H. by exists g, (filter (fun p => group (meta p) = Some g)
                              (matchPages toLowerCase f n)).
Qed.

Lemma NavGroups_Throw f n e :
  NavGroups toLowerCase config RegExp_test fallbackHref pathname f n
  = JS.Throw e →
  ∃ p pattern,
    inFiltered (filtered toLowerCase config f n) p ∧
    match_ (meta p) = Some pattern ∧ pattern ≠ [] ∧
    RegExp_test pattern pathname = JS.Throw e.
Proof.
  unfold NavGroups. intros (g & Hg & Hr)%mapM_Throw.
  apply renderGroup_Throw in Hr as [Hnone|(ps & p & pattern & Hps & Hp & H)].
  - by rewrite lookup_pages, decide_True in Hnone.
  - exists p, pattern. split; [|done]. by exists g, ps.
Qed.

(** [Nav] is rendered when its group list and its top-level links are, and
    throws what one of them throws. *)
Lemma NavTree_is_Ok mobile f n :
  (∃ t, NavTree toLowerCase config RegExp_test fallbackHref mobile pathname f n
        = JS.Ok t) ↔
  (∃ secs, NavGroups toLowerCase config RegExp_test fallbackHref pathname f n
           = JS.Ok secs) ∧
  (∃ r, TopLevelNav config pathname mobile = JS.Ok r).
Proof.
  rewrite <- TopLevelNavLinks_is_Ok. unfold NavTree.
  destruct (NavGroups _ _ _ _ _ _ _) as [secs|e]; simpl.
  - destruct (TopLevelNavLinks _ _ _) as [els|e]; simpl.
    + split; eauto.
    + split; [by intros [? ?]|by intros [_ [? ?]]].
  - split; [by intros [? ?]|by intros [[? ?] _]].
Qed.

Lemma NavTree_Throw mobile f n e :
  NavTree toLowerCase config RegExp_test fallbackHref mobile pathname f n
  = JS.Throw e →
  NavGroups toLowerCase config RegExp_test fallbackHref pathname f n
  = JS.Throw e ∨
  TopLevelNav config pathname mobile = JS.Throw e.
Proof.
  rewrite <- TopLevelNavLinks_Throw. unfold NavTree.
  destruct (NavGroups _ _ _ _ _ _ _) as [secs|e']; simpl;
    [|intros [= ->]; by left].
  destruct (TopLevelNavLinks _ _ _) as [els|e']; simpl;
    [done|intros [= ->]; by right].
Qed.

End NavThrows.

(** C4 (as amended).  The functions of the module complete without
    throwing except as follows.  [nearestScrollableContainer] completes on
    [document.body] and on every element below it; it throws a [TypeError]
    when called without an element, and on an element that is not
    scrollable and has neither parent nor host.  [TopLevelNav] completes
    exactly when [config.sidebar] is absent or [config.sidebar.links] is an
    array none of whose entries is missing; otherwise it throws, and what it
    throws is a [TypeError]; rendering its [TopLevelLink]s adds no
    exception.  The group list of [Nav] is rendered exactly when
    [new RegExp(item.meta.match).test(pathname)] completes for every page
    shown that has a non-empty [meta.match]; otherwise it throws what one
    of these tests throws; [NavItem] adds no exception.  [Nav] as a whole is
    rendered exactly when its group list and [TopLevelNav] are, and throws
    what one of them throws.  The layout effect, as written, never throws,
    and [handleChange] and the handlers of the drawer are the call of the
    callback they are given. *)
Theorem C4_functions_complete_on_expected_inputs :
  (∀ doc el chain,
      ancestorChain doc el chain →
      ∃ r, ∀ fuel, (length chain < fuel)%nat →
                   nearestScrollableContainer fuel doc (Some el)
                   = Some (JS.Ok r)) ∧
  (∀ doc fuel,
      nearestScrollableContainer (S fuel) doc None
      = Some (JS.Throw JS.TypeError)) ∧
  (∀ doc el d fuel,
      el ≠ body doc →
      nodes doc !! el = Some d →
      isElement d = true →
      scrollableNode d = false →
      parentNode d = None →
      host d = None →
      nearestScrollableContainer (S (S fuel)) doc (Some el)
      = Some (JS.Throw JS.TypeError)) ∧
  (∀ config pathname mobile,
      ((∃ r, TopLevelNav config pathname mobile = JS.Ok r) ↔
       sidebar config = None ∨
       ∃ s ls, sidebar config = Some s ∧ links s = Some ls ∧
               Forall is_Some ls) ∧
      (∀ e, TopLevelNav config pathname mobile = JS.Throw e →
            e = JS.TypeError) ∧
      ((∃ els, TopLevelNavLinks config pathname mobile = JS.Ok els) ↔
       ∃ r, TopLevelNav config pathname mobile = JS.Ok r) ∧
      (∀ e, TopLevelNavLinks config pathname mobile = JS.Throw e ↔
            TopLevelNav config pathname mobile = JS.Throw e)) ∧
  (∀ toLowerCase config RegExp_test fallbackHref pathname f n,
      ((∃ secs, NavGroups toLowerCase config RegExp_test fallbackHref
                  pathname f n = JS.Ok secs) ↔
       ∀ p pattern,
         inFiltered (filtered toLowerCase config f n) p →
         match_ (meta p) = Some pattern → pattern ≠ [] →
         ∃ b, RegExp_test pattern pathname = JS.Ok b) ∧
      (∀ e, NavGroups toLowerCase config RegExp_test fallbackHref
              pathname f n = JS.Throw e →
            ∃ p pattern,
              inFiltered (filtered toLowerCase config f n) p ∧
              match_ (meta p) = Some pattern ∧ pattern ≠ [] ∧
              RegExp_test pattern pathname = JS.Throw e) ∧
      (∀ mobile,
          ((∃ t, NavTree toLowerCase config RegExp_test fallbackHref mobile
                   pathname f n = JS.Ok t) ↔
           (∃ secs, NavGroups toLowerCase config RegExp_test fallbackHref
                      pathname f n = JS.Ok secs) ∧
           (∃ r, TopLevelNav config pathname mobile = JS.Ok r)) ∧
          (∀ e, NavTree toLowerCase config RegExp_test fallbackHref mobile
                  pathname f n = JS.Throw e →
                NavGroups toLowerCase config RegExp_test fallbackHref
                  pathname f n = JS.Throw e ∨
                TopLevelNav config pathname mobile = JS.Throw e))) ∧
  (∀ fuel st, ∃ st', layoutEffect fuel st = Some (JS.Ok st')) ∧
  (∀ (St : Type) (setFilter : jsstring -> St -> St)
     (setNavIsOpen : option (bool -> St -> St)) e s,
      handleChange setFilter e s
      = setFilter (default [] (target_value e)) s ∧
      callSetNavIsOpen setNavIsOpen false s
      = match setNavIsOpen with
        | Some set => set false s
        | None => s
        end).
Proof.
  split_and!.
  - intros doc el chain H.
    apply (nearestScrollableContainer_returns doc el chain H).
  - intros doc fuel. apply nearestScrollableContainer_undefined.
  - intros doc el d fuel. apply nearestScrollableContainer_detached.
  - intros config pathname mobile. split_and!.
    + apply TopLevelNav_is_Ok.
    + apply TopLevelNav_Throw.
    + apply TopLevelNavLinks_is_Ok.
    + apply TopLevelNavLinks_Throw.
  - intros toLowerCase config RegExp_test fallbackHref pathname f n.
    split_and!.
    + rewrite NavGroups_is_Ok. unfold testable. split.
      * intros H p pattern Hp. by apply H.
      * intros H p Hp pattern. by apply H.
    + apply NavGroups_Throw.
    + intros mobile. split; [apply NavTree_is_Ok|apply NavTree_Throw].
  - intros fuel st. unfold layoutEffect.
    destruct (activeItemRef (refs st)) as [a|]; [|eauto].
    cbn [activeItemRef previousActiveItemRef].
    rewrite decide_True by done. eauto.
  - intros St setFilter setNavIsOpen e s. split; [done|by destruct setNavIsOpen].
Qed.

(** C4, counterexample.  Under the sample configuration whose sidebar has
    an [order] and no [links], [TopLevelNav] throws a [TypeError]; on the
    element of the sample document that is attached to nothing,
    [nearestScrollableContainer] throws a [TypeError] as soon as the walk
    leaves the element; and [Nav] throws a [SyntaxError] on a page whose
    [meta.match] is not a regular expression. *)
Lemma C4_TopLevelNav_and_walk_throw :
  TopLevelNav Sample.ordered (JS.lit "/docs/intro") false
  = JS.Throw JS.TypeError ∧
  (∀ fuel, (1 < fuel)%nat →
           nearestScrollableContainer fuel Sample.dom (Some 9%nat)
           = Some (JS.Throw JS.TypeError)) ∧
  NavTree JS.asciiLower Sample.plain Sample.anchoredRegExp None false
    (JS.lit "/api") [] [(JS.lit "api", [Sample.patterned])]
  = JS.Throw JS.SyntaxError.
Proof.
  split_and!.
  - reflexivity.
  - intros [|[|fuel]] Hf; [lia|lia|]. vm_compute. reflexivity.
  - vm_compute. reflexivity.
Qed.

(* ===================================================================== *)
(** ** The layout effect *)
(* ===================================================================== *)

(** Whatever the refs and the document, the effect returns before the
    ancestor walk: it records the active item as the previous one and
    leaves the document as it is. *)
Lemma layoutEffect_keeps_document fuel (st : NavState) :
  ∃ st', layoutEffect fuel st = Some (JS.Ok st') ∧
         document st' = document st ∧
         activeItemRef (refs st') = activeItemRef (refs st) ∧
         scrollRef (refs st') = scrollRef (refs st).
Proof.
  unfold layoutEffect. destruct (activeItemRef (refs st)) as [a|] eqn:Ha.
  - cbn [activeItemRef previousActiveItemRef].
    rewrite decide_True by done. eexists. split; [done|]. by simpl.
  - by exists st.
Qed.

(** C2, the code at the failing input.  In the sample state the active
    item ([li], 1000 down, 24 high) lies below the visible window of its
    scrollable ancestor (the [div], 400 high, scrolled to 0): [scrollTop]
    is less than [1000 - 400 + 24], and the statements that follow the
    early return would set [scrollTop] to [1000 - 200 + 12 = 812].  The
    effect returns before them: the [scrollTop] of the [div] is still 0. *)
Theorem C2_layout_effect_returns_before_scrolling :
  nearestScrollableContainer 4 Sample.dom (scrollRef (refs Sample.navState))
  = Some (JS.Ok (Some 3%nat)) ∧
  scrollTop <$> nodes Sample.dom !! 3%nat = Some 0%float ∧
  (0 <? 1000 - 400 + 24)%float = true ∧
  (∃ doc', centerActiveItem Sample.dom (Some 3%nat) 5%nat = JS.Ok doc' ∧
           scrollTop <$> nodes doc' !! 3%nat = Some 812%float) ∧
  (∀ fuel, ∃ st', layoutEffect fuel Sample.navState = Some (JS.Ok st') ∧
                  document st' = Sample.dom ∧
                  scrollTop <$> nodes (document st') !! 3%nat = Some 0%float).
Proof.
  split_and!.
  - vm_compute. reflexivity.
  - vm_compute. reflexivity.
  - vm_compute. reflexivity.
  - eexists. split; vm_compute; reflexivity.
  - intros fuel.
    destruct (layoutEffect_keeps_document fuel Sample.navState)
      as (st' & Hst & Hdoc & _).
    exists st'. split_and!; [done|done|]. rewrite Hdoc. vm_compute. reflexivity.
Qed.

(* ===================================================================== *)
(** ** The drawer and the quick-search input *)
(* ===================================================================== *)

(** C3.  The dialog rendered by [SidebarLayout] is open exactly when the
    [navIsOpen] prop is true; dismissing the dialog and clicking the close
    button both call [setNavIsOpen] with [false], and do nothing when
    [setNavIsOpen] is not provided; the desktop sidebar (the wrapper and
    the props of its [Nav]) does not depend on [navIsOpen]. *)
Theorem C3_drawer_follows_navIsOpen
    (St : Type) (navIsOpen : bool) (setNavIsOpen : option (bool -> St -> St))
    (fallbackHref : option jsstring) (allowOverflow : option bool) :
  (dialog_open (SidebarLayout navIsOpen setNavIsOpen fallbackHref allowOverflow)
   = true ↔ navIsOpen = true) ∧
  (∀ s, dialog_onClose
          (SidebarLayout navIsOpen setNavIsOpen fallbackHref allowOverflow) s
        = match setNavIsOpen with
          | Some set => set false s
          | None => s
          end) ∧
  (∀ s, close_onClick
          (SidebarLayout navIsOpen setNavIsOpen fallbackHref allowOverflow) s
        = match setNavIsOpen with
          | Some set => set false s
          | None => s
          end) ∧
  (∀ navIsOpen',
      desktop_nav
        (SidebarLayout navIsOpen' setNavIsOpen fallbackHref allowOverflow)
      = desktop_nav
          (SidebarLayout navIsOpen setNavIsOpen fallbackHref allowOverflow) ∧
      wrapper_className
        (SidebarLayout navIsOpen' setNavIsOpen fallbackHref allowOverflow)
      = wrapper_className
          (SidebarLayout navIsOpen setNavIsOpen fallbackHref allowOverflow)).
Proof.
  split_and!.
  - done.
  - intros s. by destruct setNavIsOpen.
  - intros s. by destruct setNavIsOpen.
  - done.
Qed.

(** C5.  Every change event on the quick-search text input calls
    [setFilter] with the input's current value, and with the empty string
    when the value is nullish. *)
Theorem C5_change_event_sets_filter
    (St : Type) (config : Config) (setFilter : jsstring -> St -> St)
    (onChange : ChangeEvent -> St -> St) (e : ChangeEvent) (s : St) :
  DynamicSearchButton_onChange config setFilter = Some onChange →
  onChange e s
  = setFilter (match target_value e with
               | Some v => v
               | None => []
               end) s.
Proof.
  unfold DynamicSearchButton_onChange.
  destruct (algolia config); [done|]. intros [= <-].
  unfold handleChange. by destruct (target_value e).
Qed.

(** C5, witness: the state is the filter itself and [setFilter] stores its
    argument; a change event without a value clears the filter, one with
    the value "chill" stores it. *)
Lemma C5_change_event_witness :
  DynamicSearchButton_onChange Sample.plain (fun v _ => v)
  = Some (handleChange (fun (v _ : jsstring) => v)) ∧
  handleChange (fun (v _ : jsstring) => v) {| target_value := None |}
    (JS.lit "old") = [] ∧
  handleChange (fun (v _ : jsstring) => v)
    {| target_value := Some (JS.lit "chill") |} (JS.lit "old")
  = JS.lit "chill".
Proof.
  split_and!.
  - reflexivity.
  - apply (C5_change_event_sets_filter jsstring Sample.plain (fun v _ => v)
             (handleChange (fun v _ => v)) {| target_value := None |}
             (JS.lit "old")).
    reflexivity.
  - reflexivity.
Defined.

(* ===================================================================== *)
(** ** Further properties of [filtered] *)
(* ===================================================================== *)

Section TrimFacts.

Implicit Types s a b : jsstring.

Lemma isSubstring_trans a b s :
  isSubstring a b → isSubstring b s → isSubstring a s.
Proof.
  intros (a1 & a2 & ->) (b1 & b2 & ->).
  exists (b1 ++ a1), (a2 ++ b2). by rewrite <- !(assoc_L (++)).
Qed.

Lemma trimStart_app_blank a s : isBlank a → JS.trimStart (a ++ s) = JS.trimStart s.
Proof. induction 1 as [|c a Hc _ IH]; simpl; [done|by rewrite Hc]. Qed.

Lemma trimStart_nil_blank s : JS.trimStart s = [] → isBlank s.
Proof.
  induction s as [|c s IH]; simpl; [constructor|].
  destruct (JS.isWhiteSpace c) eqn:Hc; [|done].
  intros H. constructor; [done|by apply IH].
Qed.

Lemma trimStart_app s b :
  JS.trimStart s ≠ [] → JS.trimStart (s ++ b) = JS.trimStart s ++ b.
Proof.
  induction s as [|c s IH]; simpl; [done|].
  destruct (JS.isWhiteSpace c); [exact IH|done].
Qed.

Lemma trimEnd_app_blank s b : isBlank b → JS.trimEnd (s ++ b) = JS.trimEnd s.
Proof.
  intros Hb. unfold JS.trimEnd. rewrite reverse_app.
  rewrite trimStart_app_blank; [done|]. by apply Forall_reverse.
Qed.

(** White space around a string does not survive [trim]. *)
Lemma trim_pad a s b :
  isBlank a → isBlank b → JS.trim (a ++ s ++ b) = JS.trim s.
Proof.
  intros Ha Hb. unfold JS.trim. rewrite (trimStart_app_blank a _ Ha).
  destruct (JS.trimStart s) as [|c t] eqn:Hs.
  - rewrite trimStart_blank; [done|].
    apply Forall_app. split; [by apply trimStart_nil_blank|done].
  - rewrite trimStart_app by (by rewrite Hs). rewrite Hs.
    by apply trimEnd_app_blank.
Qed.

End TrimFacts.

(** X1.  A filter whose normalised text contains the normalised text of
    another filter shows no page and lists no group that the other filter
    does not: typing on, after what was typed, only narrows the
    navigation. *)
Theorem filtered_longer_filter_narrows
    (toLowerCase : jsstring -> jsstring) (config : Config)
    (f1 f2 : jsstring) (n : Nav) :
  isSubstring (toLowerCase (JS.trim f1)) (toLowerCase (JS.trim f2)) →
  (∀ p, inFiltered (filtered toLowerCase config f2 n) p →
        inFiltered (filtered toLowerCase config f1 n) p) ∧
  (∀ g, g ∈ groups (filtered toLowerCase config f2 n) →
        g ∈ groups (filtered toLowerCase config f1 n)).
Proof.
  intros Hsub.
  assert (∀ p, p ∈ matchPages toLowerCase f2 n → p ∈ matchPages toLowerCase f1 n)
    as Hmp.
  { intros p. rewrite !elem_of_matchPages. intros [Hp Hm].
    split; [done|]. by eapply isSubstring_trans. }
  split.
  - intros p. rewrite !inFiltered_iff. intros [Hp Hg].
    split; [by apply Hmp|done].
  - intros g. unfold filtered; cbn [groups].
    rewrite !(elem_of_groupsOf toLowerCase).
    intros [Hl (p & Hp & Hg)]. split; [done|]. exists p.
    split; [by apply Hmp|done].
Qed.

Lemma filtered_longer_filter_narrows_witness :
  (∀ p, inFiltered (filtered JS.asciiLower Sample.plain (JS.lit " Started ")
                      Sample.navigation) p →
        inFiltered (filtered JS.asciiLower Sample.plain (JS.lit "start")
                      Sample.navigation) p) ∧
  (∀ g, g ∈ groups (filtered JS.asciiLower Sample.plain (JS.lit " Started ")
                      Sample.navigation) →
        g ∈ groups (filtered JS.asciiLower Sample.plain (JS.lit "start")
                      Sample.navigation)).
Proof.
  apply (filtered_longer_filter_narrows JS.asciiLower Sample.plain
           (JS.lit "start") (JS.lit " Started ") Sample.navigation).
  apply includes_substring. vm_compute. reflexivity.
Defined.

(** X2.  White space before and after the filter text is ignored: the
    padded filter gives the same result. *)
Theorem filtered_ignores_surrounding_space
    (toLowerCase : jsstring -> jsstring) (config : Config)
    (a f b : jsstring) (n : Nav) :
  isBlank a → isBlank b →
  filtered toLowerCase config (a ++ f ++ b) n = filtered toLowerCase config f n.
Proof.
  intros Ha Hb. unfold filtered, matchPages. by rewrite (trim_pad a f b Ha Hb).
Qed.

Lemma filtered_ignores_surrounding_space_witness :
  filtered JS.asciiLower Sample.plain
    (JS.lit "  " ++ JS.lit "road map" ++ [9; 10]) Sample.navigation
  = filtered JS.asciiLower Sample.plain (JS.lit "road map") Sample.navigation.
Proof.
  apply (filtered_ignores_surrounding_space JS.asciiLower Sample.plain
           (JS.lit "  ") (JS.lit "road map") [9; 10] Sample.navigation).
  - repeat constructor.
  - repeat constructor.
Defined.

(** X3.  The pages recorded under a name are a sublist of the flattened
    nav: they keep the nav's order, none is repeated more often than the
    nav has it, and each carries that name as its [meta.group], so a page is
    recorded under at most one group. *)
Theorem filtered_group_pages_keep_nav_order
    (toLowerCase : jsstring -> jsstring) (config : Config)
    (f : jsstring) (n : Nav) (g : jsstring) (ps : list Page) :
  pages (filtered toLowerCase config f n) !! g = Some ps →
  sublist ps (allPages n) ∧
  (∀ p, p ∈ ps → group (meta p) = Some g) ∧
  (∀ g' ps' p, pages (filtered toLowerCase config f n) !! g' = Some ps' →
               p ∈ ps → p ∈ ps' → g' = g).
Proof.
  assert (∀ g ps p, pages (filtered toLowerCase config f n) !! g = Some ps →
                    p ∈ ps → group (meta p) = Some g) as Hgroup.
  { intros g0 ps0 p. rewrite lookup_pages. case_decide; [|done].
    intros [= <-]. by intros [? _]%list_elem_of_filter. }
  intros Hps. split_and!.
  - rewrite lookup_pages in Hps. case_decide; [|done]. injection Hps as <-.
    etrans; [apply sublist_filter|]. unfold matchPages. apply sublist_filter.
  - intros p. by apply Hgroup.
  - intros g' ps' p Hps' Hp Hp'.
    pose proof (Hgroup _ _ _ Hps Hp) as H1.
    pose proof (Hgroup _ _ _ Hps' Hp') as H2. congruence.
Qed.

Lemma filtered_group_pages_keep_nav_order_witness :
  pages (filtered JS.asciiLower Sample.plain [] Sample.navigation)
    !! JS.lit "Guides" = Some [Sample.intro; Sample.draft] ∧
  sublist [Sample.intro; Sample.draft] (allPages Sample.navigation) ∧
  (∀ p, p ∈ [Sample.intro; Sample.draft] →
        group (meta p) = Some (JS.lit "Guides")) ∧
  (∀ g' ps' p,
      pages (filtered JS.asciiLower Sample.plain [] Sample.navigation) !! g'
      = Some ps' →
      p ∈ [Sample.intro; Sample.draft] → p ∈ ps' → g' = JS.lit "Guides").
Proof.
  assert (pages (filtered JS.asciiLower Sample.plain [] Sample.navigation)
            !! JS.lit "Guides" = Some [Sample.intro; Sample.draft]) as H
    by (vm_compute; reflexivity).
  split; [exact H|].
  exact (filtered_group_pages_keep_nav_order JS.asciiLower Sample.plain []
           Sample.navigation (JS.lit "Guides") [Sample.intro; Sample.draft] H).
Defined.

(** X4.  When no page matches the filter (an empty navigation map
    included), [filtered] lists no group and records nothing, whatever the
    configuration, and the group list of [Nav] is rendered empty, without
    throwing.  [Nav] as a whole then shows its top-level links alone, and
    throws exactly when [TopLevelNav] does. *)
Theorem filtered_without_match_is_empty
    (toLowerCase : jsstring -> jsstring) (config : Config)
    (f : jsstring) (n : Nav) :
  matchPages toLowerCase f n = [] →
  groups (filtered toLowerCase config f n) = [] ∧
  pages (filtered toLowerCase config f n) = ∅ ∧
  (∀ RegExp_test fallbackHref pathname,
      NavGroups toLowerCase config RegExp_test fallbackHref pathname f n
      = JS.Ok []) ∧
  (∀ RegExp_test fallbackHref mobile pathname,
      NavTree toLowerCase config RegExp_test fallbackHref mobile pathname f n
      = match TopLevelNavLinks config pathname mobile with
        | JS.Ok els => JS.Ok {| nav_links := els; nav_groups := [] |}
        | JS.Throw e => JS.Throw e
        end).
Proof.
  intros Hmp.
  assert (groups (filtered toLowerCase config f n) = []) as Hg.
  { apply elem_of_nil_inv. intros g. unfold filtered; cbn [groups].
    rewrite (elem_of_groupsOf toLowerCase), Hmp.
    intros [_ (p & Hp & _)]. by apply elem_of_nil in Hp. }
  assert (∀ RegExp_test fallbackHref pathname,
             NavGroups toLowerCase config RegExp_test fallbackHref pathname f n
             = JS.Ok []) as Hnav.
  { intros RegExp_test fallbackHref pathname. unfold NavGroups.
    by rewrite Hg. }
  split_and!.
  - exact Hg.
  - apply map_eq. intros g. rewrite lookup_pages, Hg, lookup_empty.
    case_decide as H; [by apply elem_of_nil in H|done].
  - exact Hnav.
  - intros RegExp_test fallbackHref mobile pathname. unfold NavTree.
    rewrite Hnav. simpl. by destruct (TopLevelNavLinks _ _ _).
Qed.

Lemma filtered_without_match_is_empty_witness :
  groups (filtered JS.asciiLower Sample.ordered (JS.lit "zebra")
            Sample.navigation) = [] ∧
  pages (filtered JS.asciiLower Sample.ordered (JS.lit "zebra")
           Sample.navigation) = ∅ ∧
  (∀ RegExp_test fallbackHref pathname,
      NavGroups JS.asciiLower Sample.ordered RegExp_test fallbackHref pathname
        (JS.lit "zebra") Sample.navigation
      = JS.Ok []) ∧
  (∀ RegExp_test fallbackHref mobile pathname,
      NavTree JS.asciiLower Sample.ordered RegExp_test fallbackHref mobile
        pathname (JS.lit "zebra") Sample.navigation
      = match TopLevelNavLinks Sample.ordered pathname mobile with
        | JS.Ok els => JS.Ok {| nav_links := els; nav_groups := [] |}
        | JS.Throw e => JS.Throw e
        end).
Proof.
  apply (filtered_without_match_is_empty JS.asciiLower Sample.ordered
           (JS.lit "zebra") Sample.navigation).
  vm_compute. reflexivity.
Defined.

(** X5.  With [config.sidebar.order] configured, the list of groups does
    not depend on the order of the pages in the navigation map: two maps
    holding the same pages give the same groups, in the configured
    order. *)
Theorem filtered_order_fixes_group_sequence
    (toLowerCase : jsstring -> jsstring) (config : Config)
    (o : list jsstring) (f : jsstring) (n n' : Nav) :
  sidebarOrder config = Some o →
  allPages n ≡ₚ allPages n' →
  groups (filtered toLowerCase config f n)
  = groups (filtered toLowerCase config f n').
Proof.
  intros Ho Hperm. unfold filtered, groupsOf; cbn [groups]. rewrite Ho.
  apply list_filter_iff. intros g. rewrite !find_group_is_Some.
  assert (∀ p, p ∈ matchPages toLowerCase f n ↔ p ∈ matchPages toLowerCase f n')
    as Hmp.
  { intros p. rewrite !elem_of_matchPages. by rewrite Hperm. }
  split; intros (p & Hp & Hg); exists p; (split; [by apply Hmp|done]).
Qed.

Lemma filtered_order_fixes_group_sequence_witness :
  groups (filtered JS.asciiLower Sample.guidesFirst [] Sample.navigation)
  = groups (filtered JS.asciiLower Sample.guidesFirst []
              Sample.navigationSwapped).
Proof.
  apply (filtered_order_fixes_group_sequence JS.asciiLower Sample.guidesFirst
           [JS.lit "API"; JS.lit "Guides"] [] Sample.navigation
           Sample.navigationSwapped).
  - reflexivity.
  - apply (Permutation_app_comm [Sample.intro; Sample.draft]
             [Sample.changelog; Sample.untitled]).
Defined.

(* ===================================================================== *)
(** ** Further properties of what [Nav] renders *)
(* ===================================================================== *)

Lemma Forall2_fmap_eq {A B C} (f : A → C) (g : B → C) (l : list A)
    (k : list B) :
  Forall2 (fun x y => f x = g y) l k → f <$> l = g <$> k.
Proof. induction 1 as [|x y l k Hxy _ IH]; [done|]. cbn. by rewrite Hxy, IH. Qed.

(** X6.  [Nav] throws only through the regular expression of a page it
    shows: if rendering the groups throws [e], some page recorded under a
    listed group has a non-empty [meta.match] on which
    [new RegExp(...).test(pathname)] throws [e].  In particular the lookup
    [filteredNav.pages[group]] never comes back empty-handed. *)
Theorem NavGroups_throws_only_from_RegExp
    (toLowerCase : jsstring -> jsstring) (config : Config)
    (RegExp_test : jsstring -> jsstring -> JS.result bool)
    (fallbackHref : option jsstring) (pathname f : jsstring) (n : Nav)
    (e : JS.error) :
  NavGroups toLowerCase config RegExp_test fallbackHref pathname f n
  = JS.Throw e →
  ∃ p pattern,
    inFiltered (filtered toLowerCase config f n) p ∧
    match_ (meta p) = Some pattern ∧
    pattern ≠ [] ∧
    RegExp_test pattern pathname = JS.Throw e.
Proof.
  unfold NavGroups. intros (g & Hg & Hr)%mapM_Throw.
  unfold renderGroup in Hr. rewrite lookup_pages, decide_True in Hr by done.
  destruct (JS.mapM _ _) as [items|e'] eqn:Hitems; simpl in Hr; [done|].
  injection Hr as ->. apply mapM_Throw in Hitems as (p & Hp & Hitem).
  unfold renderNavItem, isActiveItem in Hitem.
  destruct (match_ (meta p)) as [[|c m]|] eqn:Hm; simpl in Hitem; try done.
  destruct (RegExp_test (c :: m) pathname) as [b|e'] eqn:Hre;
    simpl in Hitem; [done|]. injection Hitem as ->.
  exists p, (c :: m). split_and!; [|done|done|done].
  exists g, (filter (fun p => group (meta p) = Some g)
               (matchPages toLowerCase f n)).
  split_and!; [done| |done]. by rewrite lookup_pages, decide_True.
Qed.

Lemma NavGroups_throws_only_from_RegExp_witness :
  NavGroups JS.asciiLower Sample.plain Sample.noRegExp None (JS.lit "/api") []
    [(JS.lit "api", [Sample.patterned])]
  = JS.Throw JS.SyntaxError ∧
  ∃ p pattern,
    inFiltered (filtered JS.asciiLower Sample.plain []
                  [(JS.lit "api", [Sample.patterned])]) p ∧
    match_ (meta p) = Some pattern ∧
    pattern ≠ [] ∧
    Sample.noRegExp pattern (JS.lit "/api") = JS.Throw JS.SyntaxError.
Proof.
  assert (NavGroups JS.asciiLower Sample.plain Sample.noRegExp None
            (JS.lit "/api") [] [(JS.lit "api", [Sample.patterned])]
          = JS.Throw JS.SyntaxError) as H by (vm_compute; reflexivity).
  split; [exact H|].
  exact (NavGroups_throws_only_from_RegExp JS.asciiLower Sample.plain
           Sample.noRegExp None (JS.lit "/api") []
           [(JS.lit "api", [Sample.patterned])] JS.SyntaxError H).
Defined.

Lemma renderNavItem_Ok
    (RegExp_test : jsstring -> jsstring -> JS.result bool)
    fallbackHref pathname (item : Page) (el : NavItemElement) :
  renderNavItem RegExp_test fallbackHref pathname item = JS.Ok el →
  a_children el = title (meta item) ∧
  a_data_is_selected el = li_data_active el ∧
  (JS.truthy (match_ (meta item)) = false →
   li_data_active el = bool_decide (href item = pathname)).
Proof.
  unfold renderNavItem, isActiveItem.
  destruct (match_ (meta item)) as [[|c m]|]; simpl.
  - by intros [= <-].
  - destruct (RegExp_test (c :: m) pathname); simpl; [|done].
    by intros [= <-].
  - by intros [= <-].
Qed.

(** X7.  When the regular expression of every page with a non-empty
    [meta.match] can be built and tested, the group list of [Nav] is
    rendered without throwing: one section per listed group, in the order
    of [groups], and in each section one item per recorded page, in order,
    labelled with the page's title; an item's [data-active] and
    [data-is-selected] agree, and for a page without [meta.match] they say
    whether [href] is the pathname.  If [TopLevelNav] completes as well,
    [Nav] as a whole is rendered, with these sections. *)
Theorem NavGroups_renders_every_listed_group
    (toLowerCase : jsstring -> jsstring) (config : Config)
    (RegExp_test : jsstring -> jsstring -> JS.result bool)
    (fallbackHref : option jsstring) (pathname f : jsstring) (n : Nav) :
  (∀ p pattern, p ∈ allPages n → match_ (meta p) = Some pattern →
                pattern ≠ [] → ∃ b, RegExp_test pattern pathname = JS.Ok b) →
  ∃ secs,
    NavGroups toLowerCase config RegExp_test fallbackHref pathname f n
    = JS.Ok secs ∧
    gs_key <$> secs = groups (filtered toLowerCase config f n) ∧
    Forall
      (fun sec =>
         ∃ ps, pages (filtered toLowerCase config f n) !! gs_key sec = Some ps ∧
               Forall2
                 (fun p el =>
                    a_children el = title (meta p) ∧
                    a_data_is_selected el = li_data_active el ∧
                    (JS.truthy (match_ (meta p)) = false →
                     li_data_active el = bool_decide (href p = pathname)))
                 ps (gs_items sec))
      secs ∧
    (∀ mobile r,
        TopLevelNav config pathname mobile = JS.Ok r →
        ∃ els,
          NavTree toLowerCase config RegExp_test fallbackHref mobile pathname
            f n
          = JS.Ok {| nav_links := els; nav_groups := secs |}).
Proof.
  intros Hre.
  destruct (proj2 (NavGroups_is_Ok toLowerCase config RegExp_test fallbackHref
                     pathname f n)) as [secs Hsecs].
  { intros p Hp pattern. apply Hre.
    apply inFiltered_iff in Hp as [Hp _].
    by apply elem_of_matchPages in Hp as [? _]. }
  exists secs. split; [exact Hsecs|].
  pose proof (mapM_Ok _ _ _ Hsecs) as H2. split_and!.
  - rewrite <- (list_fmap_id (groups (filtered toLowerCase config f n))).
    symmetry. apply Forall2_fmap_eq.
    eapply Forall2_impl; [exact H2|].
    intros g sec Hr. by apply renderGroup_Ok in Hr as (ps & _ & -> & _).
  - apply Forall_forall. intros sec Hsec.
    apply list_elem_of_lookup in Hsec as [i Hi].
    destruct (Forall2_lookup_r _ _ _ _ _ H2 Hi) as (g & _ & Hr).
    apply renderGroup_Ok in Hr as (ps & Hps & -> & _ & _ & Hitems).
    exists ps. split; [done|].
    eapply Forall2_impl; [exact Hitems|].
    intros p el. apply renderNavItem_Ok.
  - intros mobile r Hr. unfold NavTree, TopLevelNavLinks.
    rewrite Hsecs, Hr. simpl. eauto.
Qed.

Lemma NavGroups_renders_every_listed_group_witness :
  ∃ secs,
    NavGroups JS.asciiLower Sample.linked Sample.anchoredRegExp None
      (JS.lit "/api/errors") [] Sample.navigationWithReference
    = JS.Ok secs ∧
    gs_key <$> secs
    = groups (filtered JS.asciiLower Sample.linked []
                Sample.navigationWithReference) ∧
    Forall
      (fun sec =>
         ∃ ps, pages (filtered JS.asciiLower Sample.linked []
                        Sample.navigationWithReference)
                 !! gs_key sec = Some ps ∧
               Forall2
                 (fun p el =>
                    a_children el = title (meta p) ∧
                    a_data_is_selected el = li_data_active el ∧
                    (JS.truthy (match_ (meta p)) = false →
                     li_data_active el
                     = bool_decide (href p = JS.lit "/api/errors")))
                 ps (gs_items sec))
      secs ∧
    (∀ mobile r,
        TopLevelNav Sample.linked (JS.lit "/api/errors") mobile = JS.Ok r →
        ∃ els,
          NavTree JS.asciiLower Sample.linked Sample.anchoredRegExp None mobile
            (JS.lit "/api/errors") [] Sample.navigationWithReference
          = JS.Ok {| nav_links := els; nav_groups := secs |}).
Proof.
  apply (NavGroups_renders_every_listed_group JS.asciiLower Sample.linked
           Sample.anchoredRegExp None (JS.lit "/api/errors") []
           Sample.navigationWithReference).
  intros p pattern Hp Hm _. apply list_elem_of_In in Hp. simpl in Hp.
  destruct Hp as [<-|[<-|[<-|[]]]]; [discriminate Hm|discriminate Hm|].
  injection Hm as <-. eexists. vm_compute. reflexivity.
Defined.

(* ===================================================================== *)
(** ** Further properties of the ancestor walk and the layout effect *)
(* ===================================================================== *)

(** X8.  Whatever it is called on, and with whatever fuel, when
    [nearestScrollableContainer] returns, it returns [document.body] or an
    element that is scrollable; it never returns [undefined]. *)
Theorem nearestScrollableContainer_result_scrolls_or_is_body
    (fuel : nat) (doc : Document) (el r : option nat) :
  nearestScrollableContainer fuel doc el = Some (JS.Ok r) →
  r = Some (body doc) ∨ ∃ i, r = Some i ∧ scrollableAt doc i = true.
Proof.
  revert el. induction fuel as [|fuel IH]; intros el; simpl; [done|].
  case_decide as Hb.
  - intros [= <-]. by left.
  - destruct (isScrollable doc el) as [[|]|e] eqn:Hs; [| |done].
    + intros [= <-]. right. unfold isScrollable in Hs.
      destruct el as [i|]; simpl in Hs; [|done]. exists i. split; [done|].
      unfold scrollableAt. destruct (nodes doc !! i) as [d|]; [|done].
      destruct (isElement d); [|done]. by injection Hs as ->.
    + destruct (parentOrHost doc el) as [el'|e]; [|done]. apply IH.
Qed.

Lemma nearestScrollableContainer_result_witness :
  nearestScrollableContainer 4 Sample.dom (Some 5%nat)
  = Some (JS.Ok (Some 3%nat)) ∧
  (Some 3%nat = Some (body Sample.dom) ∨
   ∃ i, Some 3%nat = Some i ∧ scrollableAt Sample.dom i = true).
Proof.
  assert (nearestScrollableContainer 4 Sample.dom (Some 5%nat)
          = Some (JS.Ok (Some 3%nat))) as H by (vm_compute; reflexivity).
  split; [exact H|].
  exact (nearestScrollableContainer_result_scrolls_or_is_body 4 Sample.dom
           (Some 5%nat) (Some 3%nat) H).
Defined.

(** X9.  The walk cannot leave the elements: from an element that is
    neither [document.body] nor scrollable and whose parent is a node
    without computed style (the document, a shadow root), the next test
    throws a [TypeError].  Called on the root element, the function throws
    unless the root element scrolls. *)
Theorem nearestScrollableContainer_throws_above_the_elements
    (doc : Document) (el p : nat) (d dp : DomNode) (fuel : nat) :
  el ≠ body doc →
  nodes doc !! el = Some d →
  isElement d = true →
  scrollableNode d = false →
  parentNode d = Some p →
  p ≠ body doc →
  nodes doc !! p = Some dp →
  isElement dp = false →
  nearestScrollableContainer (S (S fuel)) doc (Some el)
  = Some (JS.Throw JS.TypeError).
Proof.
  intros Hne Hd He Hs Hp Hpb Hdp Hep.
  rewrite (walk_up doc el d p); try done.
  - cbn [nearestScrollableContainer]. rewrite decide_False by congruence.
    unfold isScrollable; simpl. by rewrite Hdp, Hep.
  - unfold scrollableAt. by rewrite Hd, He, Hs.
Qed.

Lemma nearestScrollableContainer_throws_above_witness :
  nearestScrollableContainer 2 Sample.dom (Some 1%nat)
  = Some (JS.Throw JS.TypeError).
Proof.
  apply (nearestScrollableContainer_throws_above_the_elements Sample.dom
           1%nat 0%nat
           (Sample.element (Some 0%nat) "visible" 800 2400 0 0 2400)
           Sample.documentNode 0).
  - vm_compute. discriminate.
  - vm_compute. reflexivity.
  - reflexivity.
  - vm_compute. reflexivity.
  - reflexivity.
  - vm_compute. discriminate.
  - vm_compute. reflexivity.
  - reflexivity.
Defined.

(** X10.  The layout effect, as written, needs no fuel, never throws and
    never touches the document: it only copies [activeItemRef.current] into
    [previousActiveItemRef.current] when an active item exists, and does
    nothing at all otherwise.  Running it again changes nothing more. *)
Theorem layoutEffect_only_records_the_active_item
    (fuel : nat) (st : NavState) :
  ∃ st',
    layoutEffect fuel st = Some (JS.Ok st') ∧
    document st' = document st ∧
    activeItemRef (refs st') = activeItemRef (refs st) ∧
    scrollRef (refs st') = scrollRef (refs st) ∧
    previousActiveItemRef (refs st')
    = match activeItemRef (refs st) with
      | Some a => Some a
      | None => previousActiveItemRef (refs st)
      end ∧
    layoutEffect fuel st' = Some (JS.Ok st').
Proof.
  unfold layoutEffect. destruct (activeItemRef (refs st)) as [a|] eqn:Ha.
  - cbn [activeItemRef previousActiveItemRef].
    rewrite decide_True by done. eexists. split; [done|]. simpl.
    rewrite decide_True by done. by split_and!.
  - exists st. rewrite Ha. by split_and!.
Qed.

(** X11.  The statements that centre the active item write nothing but the
    [scrollTop] of the scrollable container: when they complete,
    [document.body] and every other node are as before, and the container
    keeps all its other properties. *)
Theorem centerActiveItem_writes_only_scrollTop
    (doc doc' : Document) (scrollable : option nat) (active : nat) :
  centerActiveItem doc scrollable active = JS.Ok doc' →
  ∃ s sd sd',
    scrollable = Some s ∧
    nodes doc !! s = Some sd ∧
    nodes doc' !! s = Some sd' ∧
    sd' = setScrollTop (scrollTop sd') sd ∧
    body doc' = body doc ∧
    ∀ i, i ≠ s → nodes doc' !! i = nodes doc !! i.
Proof.
  unfold centerActiveItem. destruct scrollable as [s|]; [|done].
  destruct (nodes doc !! s) as [sd|] eqn:Hsd; [|done].
  destruct (nodes doc !! active) as [ad|]; [|done].
  destruct (isElement sd && isElement ad); [|done].
  destruct (_ || _).
  - intros [= <-]. eexists s, sd, _. cbn [nodes body].
    split_and!; [done|done|apply lookup_insert_eq|done|done|].
    intros i Hi. by apply lookup_insert_ne.
  - intros [= <-]. exists s, sd, sd.
    split_and!; [done|done|done|by destruct sd|done|done].
Qed.

Lemma centerActiveItem_writes_only_scrollTop_witness :
  ∃ doc',
    centerActiveItem Sample.dom (Some 3%nat) 5%nat = JS.Ok doc' ∧
    ∃ s sd sd',
      Some 3%nat = Some s ∧
      nodes Sample.dom !! s = Some sd ∧
      nodes doc' !! s = Some sd' ∧
      sd' = setScrollTop (scrollTop sd') sd ∧
      body doc' = body Sample.dom ∧
      ∀ i, i ≠ s → nodes doc' !! i = nodes Sample.dom !! i.
Proof.
  eexists. split; [vm_compute; reflexivity|].
  apply (centerActiveItem_writes_only_scrollTop Sample.dom _ (Some 3%nat)
           5%nat).
  vm_compute. reflexivity.
Defined.

(* ===================================================================== *)
(** ** Further properties of the top-level links *)
(* ===================================================================== *)

Lemma isExternalHref_prefix (h : jsstring) :
  isExternalHref h = true ↔
  ∃ rest, h = JS.lit "http://" ++ rest ∨ h = JS.lit "https://" ++ rest.
Proof.
  unfold isExternalHref. rewrite orb_true_iff, !startsWith_prefix.
  split.
  - intros [[b ->]|[b ->]]; eauto.
  - intros [b [->| ->]]; eauto.
Qed.

Lemma TopLevelNav_Ok_links (config : Config) pathname mobile
    (ps : list TopLevelLinkProps) :
  TopLevelNav config pathname mobile = JS.Ok (Some ps) →
  ∃ s ls,
    sidebar config = Some s ∧ links s = Some ls ∧
    Forall2 (fun link props => topLevelLink pathname mobile link = JS.Ok props)
      ls ps.
Proof.
  unfold TopLevelNav. destruct (sidebar config) as [s|]; [|done].
  destruct (links s) as [ls|] eqn:Hls; [|done].
  destruct (JS.mapM _ ls) as [ps'|e] eqn:Hps; simpl; [|done].
  intros [= <-]. exists s, ls. split_and!; [done|done|by apply mapM_Ok].
Qed.

Lemma topLevelLink_isActive pathname mobile link (props : TopLevelLinkProps) :
  topLevelLink pathname mobile link = JS.Ok props →
  tl_isActive props = JS.startsWith pathname (tl_href props).
Proof. destruct link as [l|]; simpl; [|done]. by intros [= <-]. Qed.

(** X12.  When [TopLevelNav] completes, it renders nothing if there is no
    [config.sidebar], and otherwise one link per entry of
    [config.sidebar.links], in order: its [href] is the entry's [url], or
    the empty string, and it is active exactly when that text is a prefix
    of the pathname.  So an entry without [url] is active on every page,
    while its icon is told so only where the pathname starts with
    ['undefined']; with a [url], link and icon agree. *)
Theorem TopLevelNav_link_is_active_on_prefix
    (config : Config) (pathname : jsstring) (mobile : bool)
    (r : option (list TopLevelLinkProps)) :
  TopLevelNav config pathname mobile = JS.Ok r →
  match r with
  | None => sidebar config = None
  | Some ps =>
      ∃ s ls,
        sidebar config = Some s ∧ links s = Some ls ∧
        Forall2
          (fun link props =>
             ∃ l, link = Some l ∧
                  tl_mobile props = mobile ∧
                  tl_children props = label l ∧
                  tl_href props = default [] (url l) ∧
                  (tl_isActive props = true ↔
                   ∃ rest, pathname = tl_href props ++ rest) ∧
                  (url l = None →
                   tl_isActive props = true ∧
                   (tl_icon_active props = true ↔
                    ∃ rest, pathname = JS.lit "undefined" ++ rest)) ∧
                  (is_Some (url l) →
                   tl_icon_active props = tl_isActive props))
          ls ps
  end.
Proof.
  destruct r as [ps|].
  - intros (s & ls & Hs & Hls & H2)%TopLevelNav_Ok_links.
    exists s, ls. split_and!; [done|done|].
    eapply Forall2_impl; [exact H2|].
    intros [l|] props; simpl; [|done]. intros [= <-]; cbn.
    exists l. split_and!; try done.
    + apply startsWith_prefix.
    + intros ->. simpl. split; [apply startsWith_nil|apply startsWith_prefix].
    + by intros [u ->].
  - unfold TopLevelNav. destruct (sidebar config) as [s|]; [|done].
    destruct (links s) as [ls|]; [|done].
    by destruct (JS.mapM _ ls).
Qed.

Lemma TopLevelNav_link_is_active_on_prefix_witness :
  ∃ ps,
    TopLevelNav Sample.linked (JS.lit "/docs/intro") true = JS.Ok (Some ps) ∧
    tl_isActive <$> ps = [true; true] ∧
    tl_icon_active <$> ps = [true; false] ∧
    ∃ s ls,
      sidebar Sample.linked = Some s ∧ links s = Some ls ∧
      Forall2
        (fun link props =>
           ∃ l, link = Some l ∧
                tl_mobile props = true ∧
                tl_children props = label l ∧
                tl_href props = default [] (url l) ∧
                (tl_isActive props = true ↔
                 ∃ rest, JS.lit "/docs/intro" = tl_href props ++ rest) ∧
                (url l = None →
                 tl_isActive props = true ∧
                 (tl_icon_active props = true ↔
                  ∃ rest, JS.lit "/docs/intro" = JS.lit "undefined" ++ rest)) ∧
                (is_Some (url l) →
                 tl_icon_active props = tl_isActive props))
        ls ps.
Proof.
  eexists. split; [vm_compute; reflexivity|].
  split; [vm_compute; reflexivity|].
  split; [vm_compute; reflexivity|].
  apply (TopLevelNav_link_is_active_on_prefix Sample.linked
           (JS.lit "/docs/intro") true (Some _)).
  vm_compute. reflexivity.
Defined.

(** X13.  [TopLevelLink] renders the bare anchor exactly for an [href]
    that starts with [http://] or [https://], and a router link otherwise;
    [TopLevelNav] gives either the link's own [href] and no [as].  On a
    pathname that starts with a slash, a link that leaves the site is never
    marked active. *)
Theorem TopLevelNav_outbound_links_are_never_active
    (config : Config) (pathname : jsstring) (mobile : bool)
    (els : list TopLevelLinkElement) :
  (∃ rest, pathname = JS.lit "/" ++ rest) →
  TopLevelNavLinks config pathname mobile = JS.Ok (Some els) →
  Forall
    (fun el =>
       match el with
       | PlainAnchor h props =>
           h = tl_href props ∧
           (∃ rest, h = JS.lit "http://" ++ rest ∨ h = JS.lit "https://" ++ rest) ∧
           tl_isActive props = false
       | RouterLink h a props =>
           h = tl_href props ∧ a = None ∧
           ¬ (∃ rest, h = JS.lit "http://" ++ rest ∨ h = JS.lit "https://" ++ rest)
       end)
    els.
Proof.
  intros [rest ->]. unfold TopLevelNavLinks.
  destruct (TopLevelNav config _ mobile) as [[ps|]|e] eqn:Hnav; simpl; try done.
  intros [= <-]. apply Forall_fmap, Forall_forall. intros props Hprops.
  apply TopLevelNav_Ok_links in Hnav as (s & ls & _ & _ & H2).
  apply list_elem_of_lookup in Hprops as [i Hi].
  destruct (Forall2_lookup_r _ _ _ _ _ H2 Hi) as (link & _ & Hact).
  apply topLevelLink_isActive in Hact.
  simpl. unfold TopLevelLink.
  destruct (isExternalHref (tl_href props)) eqn:Hext.
  - apply isExternalHref_prefix in Hext. split_and!; [done|done|].
    rewrite Hact. apply not_true_is_false. intros [b Hb]%startsWith_prefix.
    destruct Hext as [r [Hr|Hr]]; rewrite Hr in Hb; discriminate Hb.
  - split_and!; [done|done|]. intros H%isExternalHref_prefix. congruence.
Qed.

Lemma TopLevelNav_outbound_links_witness :
  ∃ els,
    TopLevelNavLinks Sample.outbound (JS.lit "/docs/intro") false
    = JS.Ok (Some els) ∧
    length els = 1%nat ∧
    Forall
      (fun el =>
         match el with
         | PlainAnchor h props =>
             h = tl_href props ∧
             (∃ rest, h = JS.lit "http://" ++ rest
                      ∨ h = JS.lit "https://" ++ rest) ∧
             tl_isActive props = false
         | RouterLink h a props =>
             h = tl_href props ∧ a = None ∧
             ¬ (∃ rest, h = JS.lit "http://" ++ rest
                        ∨ h = JS.lit "https://" ++ rest)
         end)
      els.
Proof.
  eexists. split; [vm_compute; reflexivity|]. split; [reflexivity|].
  apply (TopLevelNav_outbound_links_are_never_active Sample.outbound
           (JS.lit "/docs/intro") false).
  - by exists (JS.lit "docs/intro").
  - vm_compute. reflexivity.
Defined.
